(* ===== verification/_CoqProject ===== *)
-Q . S2P
Prelude.v
Random.v
Transform.v
Complexity.v
Strength.v
Entropy.v
Signup.v
Questions.v
RateLimit.v
Quiz.v
Accounts.v
AuthText.v
Flow.v
