(* ===== verification/Prelude.v ===== *)
(** * MemPass password analyzer: a verified model

    This development models the JavaScript sources of the MemPass demo
    (src/signup.js, src/auth.js, src/login.js, src/js/script.js) as Rocq
    definitions and proves what they guarantee, and where they fall short
    of the spec, about the passwords they derive and score and about the
    login rate limiter.

    ** The program and how its parts interact

    - The signup page (signup.js) lets the user pick two different
      questions ([updateQuestionInputs], [getRemainingQuestions],
      [addSecondQuestion]), reads the two security answers
      ([validateAnswers]), derives a password ([generatePassword]:
      [transformAnswer] on each answer, a random separator, the year's
      last two digits, up to three extra characters, padding to 12 units,
      then the back-fill [ensureComplexity]), shows it with the class-count
      meter [updateStrengthIndicator], and on submission stores it in
      localStorage.
    - The quiz page (js/script.js) derives a password from three or more
      answers: letters only, capitalised, joined by "-", a random symbol,
      a two-digit number, padding to 14 units with crypto randomness.
    - AuthUtils (auth.js) scores passwords ([validatePassword],
      [checkPasswordStrength]/[calculateEntropy]) and rate-limits attempts
      per identifier in localStorage ([checkRateLimit]); it also keeps a
      session in sessionStorage.
    - The login page (login.js) compares the credentials with the stored
      user, prefills a remembered email and shows a password hint read
      from the stored account.
    The components share no state but localStorage and the randomness
    source; both are explicit in the model.

    ** Files, and what each models

    - [Prelude] (this file): JS strings as [list ascii], the regular
      expression classes of the code, the string built-ins, the shared
      hint databases ([jsdb], [jsrw]) and tactics ([unfold_classes],
      [class_arith]).
    - [Random]: the randomness as a stream threaded by a state monad
      [Rnd]; [mathRandomInt] is [Math.floor(Math.random() * k)],
      [secureRandomNumber] the crypto-based draw of script.js; the class
      [UniformDraw] is the interface the generators are proved against
      (a draw lands in [0, k)), with an instance for each source; the
      padding loop [pad_loop] shared by both generators, and the same
      loop as a [while] statement ([pad_exec], a big-step relation with
      no fuel).
    - [Transform]: [transformAnswer] (signup.js 144-178), its
      categories and the five leet replacements.
    - [Complexity]: [ensureComplexity] (signup.js 180-201), one
      definition per [if] of the code.
    - [Strength]: the meter of signup.js ([indicatorScore],
      [indicatorTier]), [AuthUtils.validatePassword] and
      [getPasswordStrength], and the entropy estimate
      ([getCharsetSize], [entropy_below], [checkPasswordStrength]).
    - [Entropy]: [calculateEntropy] on the real numbers (Stdlib's
      [ln]), and its link with the integer test [entropy_below].
    - [Signup]: the signup page's state ([SignupPage]: the globals
      [currentPassword]/[userAnswers] and the DOM it writes),
      [validateAnswers], the derivation [derive_signup],
      [generatePassword] and [copyPassword].
    - [Questions]: the question selection of signup.js: the handlers
      [updateQuestionInputs], [getRemainingQuestions] and
      [addSecondQuestion] over the DOM fields they write
      ([QuestionPage]), and the user's events as the step relation
      [qstep] with its reachable states [q_reachable] (and the function
      [qrun] that runs a list of events).
    - [RateLimit]: [checkRateLimit] over the [rate_limit_*] entries of
      localStorage (a gmap), the step relation [rl_step] of the store and
      its reachable states [rl_reachable]; the spec's contract
      [RateSpec.checkAndRecord] on caller-owned windows, and the
      abstraction [abs] from the store to those windows.
    - [Quiz]: [generatePassword] of script.js as [quizGeneratePassword],
      its [forEach] callback as [quiz_step] folded over the inputs.
    - [Accounts]: localStorage and sessionStorage as gmaps of decoded
      values ([Browser]); the signup form's submit handler
      [signupSubmit], the login handler [loginSubmit], the remember-me
      handler [rememberedLogin], the hint [showPasswordHint], and
      AuthUtils' [generateId], [setSession] / [getSession] /
      [clearSession].
    - [AuthText]: [AuthUtils.sanitizeInput] (auth.js 31-39) and
      [AuthUtils.generateHint] (auth.js 42-55); no page calls them.
    - [Flow]: the signup page end to end, composing [Questions],
      [Signup] and [Accounts].

    ** What the theorems show

    - Signup: every derived password is at least 12 units long, has a
      lowercase letter, a digit and a special character, is valid and
      rated strong by [validatePassword] and at least fair on the meter
      ([derive_signup_validates]); letter-free answers and extra
      characters ending in their only uppercase letter give a password
      without one, whatever the draws ([derive_signup_no_upper]); the page updates of [generatePassword]
      on success and on missing answers.
    - Complexity: the back-fill's three-class guarantee, its length
      bounds, that a complete password is left alone, exactly which
      inputs come out without an uppercase letter
      ([ensureComplexity_drops_upper]), and that on every such output a
      second application changes it ([ensureComplexity_not_idempotent]).
    - Transform: the five replacements equal one character map and
      commute; the length of transformed 7-bit answers and their case.
    - Strength: [validatePassword] accepts exactly "length >= 8 and two of
      four classes"; the meter's strong tier; the entropy tier is
      monotone in the length; the three policies disagree on every
      password of 13 or more lowercase letters.
    - Entropy: the integer test [size^len < 2^bits] is exactly the
      comparison of the real [log2(size^len)] with the bound
      ([entropy_below_iff], the lemma that justifies the integer model of
      the tiers).
    - RateLimit: the invariant 1 <= count <= 5 of every reachable store
      (rule induction on [rl_reachable]); the closed form of a burst of
      calls; the reset after the window; refusals write nothing; calls
      touch only their own key; the window is fixed, not sliding: from
      any store without a record, ten calls of which nine fall within
      one millisecond are all allowed ([fixed_window_ten_allowed]).
      Refinement: any interleaving of calls at any identifiers gets the
      decisions of the spec's [checkAndRecord] on the windows read off
      the store ([run_trace_refines], by a simulation one call at a
      time).
    - Quiz: outputs have at least 14 units; every output is the joined
      answers, a symbol, a number 10..99 and padding digits 0..8; a blank
      answer anywhere, followed by three valid ones, adds its alert but
      does not stop the generator (the [return] of the [forEach]
      callback); with valid answers the output starts with the joined
      answers.
    - Accounts: the signup-then-login round trip; a failed login changes
      nothing; a login never creates the AuthUtils session; the single
      [mempass_user] key (a second signup replaces the first account,
      and the email "user" makes the password key overwrite it, after
      which no login with that password succeeds); the
      session and remember-me expiry; the hint after a signup, and the
      hint throwing for an account created before any generation; the
      id of [generateId] reads back as its timestamp and suffix.
    - Questions: by rule induction on [q_reachable], [#q2] always lists
      the questions other than the first and a second answer exists
      only for one of them ([q_inv_reachable]); hence the recorded
      answers carry two distinct categories of [transformAnswer]
      ([recorded_answers_categories]); the options text of
      [getRemainingQuestions] for the i-th question reads back as the
      list with exactly that entry deleted.
    - Flow: from any reachable page whose answers validate, Generate,
      submit and login with the generated password succeed, and the
      stored answers are for two different questions ([signup_flow]).
    - Random: over the 2^32 values of the 32-bit draw, each residue of
      [secureRandomNumber max] is hit [2^32 / max] times, once more below
      [2^32 mod max]: the draw is uniform only when [max] divides 2^32
      ([secureRandomNumber_counts]).  The padding [while] loop
      terminates from every state ([pad_exec_terminates]), and the
      fuelled [pad_loop] computes exactly its result (the lemma
      [pad_loop_refines]).
    - AuthText: a sanitised string has at most 100 units and none of the
      removed characters; sanitising twice can change the result; the
      shape of a hint.

    ** Bounds, fuel and what is abstracted

    - The padding loops are fixpoints on fuel; the fuel is the minimum
      length itself (12 or 14): each iteration appends one unit, so that
      many iterations always reach the bound ([Random.pad_loop_fuel]
      shows more fuel changes nothing, [Random.pad_loop_spec] that the
      loop then stops exactly at the bound); [Random.pad_loop_refines]
      shows that this fuel gives the result of the unfuelled [while]
      loop [pad_exec].
    - Randomness: theorems quantify over every stream, so they hold for
      every outcome of the source.  [Math.random()] is [m / 2^53] (the
      engine's 53-bit generator) and the product with [k] is exact; the
      double rounding of that product is not modelled.
    - Entropy: [log2(size^len) < b] is decided as [size^len < 2^b] on
      integers, exact for reals ([Entropy.entropy_below_iff]); double
      rounding and the overflow of
      [Math.pow] are not modelled (an overflowed value compares as >= 60
      bits, as the integer one does).
    - Strings: one code unit per [ascii] (0..255); case mapping is exact
      for 7-bit code units only (the engine's Unicode mapping of
      128..255 is not modelled).
    - localStorage values are modelled decoded: [JSON.stringify] /
      [JSON.parse] of the records the code stores round-trip.  A stored
      plain text (the password key of the email "user" lands on
      [mempass_user]) goes through [JSON.parse], which with
      [Date.prototype.setDate] is a field of the record
      [Accounts.Runtime]: the login theorems hold for every runtime
      (every [JSON.parse] result, every time zone's [setDate]), the
      collision theorem for every [JSON.parse] whose decoded password
      field is shorter than the text it came from.

    ** Not modelled

    The constant text of the HTML templates, navigation, focus moves
    and timers (the redirects, the alerts' five-second timers): they
    compute no value the other parts use.  The pages' HTML files are
    outside src/: the options of the signup page's [#q1] and of the
    login page's selects are arguments of the handlers that read them.
    The text of [Math.random().toString(36)] is an argument of
    [generateId] (the engine's base-36 printing of a double is not
    specified to the digit).  Doubles are real numbers or integers:
    their rounding is not modelled; [Date] values are milliseconds.
    *)

(** ** This file: [Prelude]

    JavaScript strings are UTF-16 code-unit sequences; the model takes
    one code unit per [ascii] (8 bits), so a JS string is a [list ascii]
    ([jstr]).  The character classes of the regular expressions of the
    code ([A-Z], [a-z], \d, the special class of signup.js / auth.js and
    [^a-zA-Z0-9]) are boolean predicates on code units, and [regex_test]
    is [RegExp.prototype.test] for a one-character class.  The string
    built-ins the code calls (charAt, slice, substring, toUpperCase,
    toLowerCase, trim, split, join, replace with a /x/gi pattern, number
    to string) are written out with the ECMAScript clamping rules.
    [toUpperCase]/[toLowerCase] map the ASCII letters only: for code
    units 128..255 the Unicode case mapping of the engine is not
    modelled, so statements about case are exact for 7-bit strings. *)

From Stdlib Require Import Ascii String ZArith Decimal DecimalString DecimalNat DecimalFacts.
From stdpp Require Import base list gmap strings.

Declare Scope js_scope.
Delimit Scope js_scope with js.
Open Scope js_scope.

(** A JavaScript string, one code unit per element. *)
Abbreviation jstr := (list ascii).

(** A JS string literal, written with Rocq's string syntax. *)
Notation "‹ s ›" := (list_ascii_of_string s%string) (format "‹ s ›") : js_scope.

(** ** Character classes of the regular expressions *)

Definition code (c : ascii) : nat := nat_of_ascii c.

Definition in_range (lo hi : nat) (c : ascii) : bool :=
  (lo <=? code c) && (code c <=? hi).

(** [A-Z] *)
Definition is_upper : ascii → bool := in_range 65 90.
(** [a-z] *)
Definition is_lower : ascii → bool := in_range 97 122.
(** \d *)
Definition is_digit : ascii → bool := in_range 48 57.

(** The special-character class [!@#$%^&*()_+\-=\[\]{}|;:,.<>?] of
    signup.js and auth.js; it lists the same characters as the constant
    [SPECIAL_CHARS] of signup.js. *)
Definition SPECIAL_CHARS : jstr := ‹"!@#$%^&*()_+-=[]{}|;:,.<>?"›.

Definition is_special (c : ascii) : bool := bool_decide (c ∈ SPECIAL_CHARS).

(** [^a-zA-Z0-9] *)
Definition is_non_alnum (c : ascii) : bool :=
  negb (is_lower c || is_upper c || is_digit c).

(** [/[class]/.test(s)]: some code unit of [s] is in the class. *)
Definition regex_test (p : ascii → bool) (s : jstr) : bool := existsb p s.

Definition hasUpper : jstr → bool := regex_test is_upper.
Definition hasLower : jstr → bool := regex_test is_lower.
Definition hasDigit : jstr → bool := regex_test is_digit.
Definition hasSpecial : jstr → bool := regex_test is_special.

(** ** String built-ins *)

Definition char_toUpper (c : ascii) : ascii :=
  if is_lower c then ascii_of_nat (code c - 32) else c.
Definition char_toLower (c : ascii) : ascii :=
  if is_upper c then ascii_of_nat (code c + 32) else c.

Definition toUpperCase (s : jstr) : jstr := map char_toUpper s.
Definition toLowerCase (s : jstr) : jstr := map char_toLower s.

(** [s.charAt(i)]: the one-unit string at [i], or "" out of range. *)
Definition charAt (s : jstr) (i : nat) : jstr :=
  match s !! i with Some c => [c] | None => [] end.

(** [s.slice(i)] for a non-negative [i]. *)
Definition slice_from (s : jstr) (i : nat) : jstr := drop i s.

(** [String.prototype.substring(a, b)]: both bounds clamped to
    [0, length], then swapped when [a > b]. *)
Definition clamp (len : nat) (z : Z) : nat :=
  Z.to_nat (Z.max 0 (Z.min z (Z.of_nat len))).

Definition substring (s : jstr) (a b : Z) : jstr :=
  let a' := clamp (length s) a in
  let b' := clamp (length s) b in
  drop (a' `min` b') (take (a' `max` b') s).

(** [s.substring(a)]: the end defaults to the length. *)
Definition substring_from (s : jstr) (a : Z) : jstr :=
  substring s a (Z.of_nat (length s)).

(** [s.split(sep)] for a one-unit separator: empty fields are kept, and
    the empty string splits into one empty field. *)
Fixpoint split (sep : ascii) (s : jstr) : list jstr :=
  match s with
  | [] => [[]]
  | c :: s' =>
      let parts := split sep s' in
      if decide (c = sep) then [] :: parts
      else match parts with
           | p :: ps => (c :: p) :: ps
           | [] => [[c]]
           end
  end.

(** [parts.join(sep)]. *)
Fixpoint join (sep : jstr) (parts : list jstr) : jstr :=
  match parts with
  | [] => []
  | [p] => p
  | p :: ps => p ++ sep ++ join sep ps
  end.

(** The code units [String.prototype.trim] removes, restricted to
    0..255: TAB, LF, VT, FF, CR, SPACE and NO-BREAK SPACE. *)
Definition is_js_space (c : ascii) : bool :=
  bool_decide (code c ∈ [9; 10; 11; 12; 13; 32; 160]).

Fixpoint trim_start (s : jstr) : jstr :=
  match s with
  | c :: s' => if is_js_space c then trim_start s' else s
  | [] => []
  end.

Definition trim (s : jstr) : jstr := reverse (trim_start (reverse (trim_start s))).

(** [s.replace(/x/gi, r)] for a lowercase letter [x]: every occurrence of
    [x] or of its uppercase form is replaced by the one unit [r]. *)
Definition replace_ci_char (x r c : ascii) : ascii :=
  if decide (c = x ∨ c = char_toUpper x) then r else c.

Definition replace_ci (x r : ascii) (s : jstr) : jstr := map (replace_ci_char x r) s.

(** [String(n)] for a non-negative integer: its decimal digits. *)
Definition number_to_string (n : nat) : jstr :=
  list_ascii_of_string (NilEmpty.string_of_uint (Nat.to_uint n)).

Definition z_to_string (z : Z) : jstr := number_to_string (Z.to_nat z).

(** Reading a run of decimal digits back (the inverse of
    [number_to_string], used to state round trips). *)
Definition parse_number (s : jstr) : option nat :=
  Nat.of_uint <$> NilEmpty.uint_of_string (string_of_list_ascii s).

(** ** Automation shared by the components *)

Create HintDb jsdb discriminated.
Create Rewrite HintDb jsrw.

(** Unfold the character classes and regex tests down to [existsb]. *)
Ltac unfold_classes :=
  unfold hasUpper, hasLower, hasDigit, hasSpecial, regex_test in *.

(** Decide a closed statement about concrete strings by evaluation. *)
Ltac js_eval := vm_compute; first [reflexivity | lia | tauto | discriminate].

(** Case on every comparison of a code unit with a bound. *)
Ltac class_arith :=
  unfold is_upper, is_lower, is_digit, in_range in *;
  repeat match goal with
         | |- context [?a <=? ?b] => destruct (Nat.leb_spec a b)
         | H : context [?a <=? ?b] |- _ => destruct (Nat.leb_spec a b)
         end; simpl in *; first [done | lia].

(** ** Generic lemmas on strings and classes *)

Lemma digit_not_letter c : is_digit c = true → is_upper c = false ∧ is_lower c = false.
Proof. intros H. split; class_arith. Qed.

Lemma upper_not_lower c : is_upper c = true → is_lower c = false.
Proof. intros H. class_arith. Qed.

Lemma digit_not_special c : is_digit c = true → is_special c = false.
Proof.
  intros Hd. unfold is_special. apply bool_decide_eq_false. intros Hin. simpl in Hin.
  repeat (apply elem_of_cons in Hin as [->|Hin]; [discriminate Hd|]).
  by apply not_elem_of_nil in Hin.
Qed.

Lemma lower_not_special c : is_lower c = true → is_special c = false.
Proof.
  intros Hl. unfold is_special. apply bool_decide_eq_false. intros Hin. simpl in Hin.
  repeat (apply elem_of_cons in Hin as [->|Hin]; [discriminate Hl|]).
  by apply not_elem_of_nil in Hin.
Qed.

Lemma regex_test_app p (s t : jstr) :
  regex_test p (s ++ t) = regex_test p s || regex_test p t.
Proof. apply existsb_app. Qed.

Lemma regex_test_cons p c (s : jstr) :
  regex_test p (c :: s) = p c || regex_test p s.
Proof. reflexivity. Qed.

Lemma regex_test_true p (s : jstr) :
  regex_test p s = true ↔ ∃ c, c ∈ s ∧ p c = true.
Proof.
  unfold regex_test. rewrite existsb_exists.
  by setoid_rewrite list_elem_of_In.
Qed.

Lemma regex_test_false p (s : jstr) :
  regex_test p s = false ↔ ∀ c, c ∈ s → p c = false.
Proof.
  split.
  - intros Hf c Hc. destruct (p c) eqn:E; [|done].
    assert (regex_test p s = true) by (apply regex_test_true; eauto). congruence.
  - intros Hall. destruct (regex_test p s) eqn:E; [|done].
    apply regex_test_true in E as (c & Hc & Hp). rewrite Hall in Hp; done.
Qed.

#[export] Hint Rewrite regex_test_app regex_test_cons : jsrw.

Lemma length_toUpperCase s : length (toUpperCase s) = length s.
Proof. apply length_map. Qed.
Lemma length_toLowerCase s : length (toLowerCase s) = length s.
Proof. apply length_map. Qed.
Lemma length_replace_ci x r s : length (replace_ci x r s) = length s.
Proof. apply length_map. Qed.

#[export] Hint Rewrite length_toUpperCase length_toLowerCase length_replace_ci
  @length_app @length_drop @length_take : jsrw.

Lemma length_charAt s i : length (charAt s i) = if decide (i < length s) then 1 else 0.
Proof.
  unfold charAt. case_decide.
  - by destruct (lookup_lt_is_Some_2 s i) as [c ->].
  - by rewrite lookup_ge_None_2 by lia.
Qed.

Lemma charAt_0 c (s : jstr) : charAt (c :: s) 0 = [c].
Proof. reflexivity. Qed.

Lemma substring_from_drop (s : jstr) (n : nat) :
  n ≤ length s → substring_from s (Z.of_nat n) = drop n s.
Proof.
  intros Hn. unfold substring_from, substring, clamp.
  rewrite !Z.max_r, !Z.min_l by lia. rewrite !Nat2Z.id.
  rewrite Nat.min_l, Nat.max_r by lia. by rewrite firstn_all.
Qed.

Lemma substring_prefix (s : jstr) (n : Z) :
  (0 ≤ n)%Z → substring s 0 n = take (Z.to_nat (Z.min n (Z.of_nat (length s)))) s.
Proof.
  intros Hn. unfold substring, clamp.
  replace (Z.to_nat (Z.max 0 (Z.min 0 _))) with 0%nat by lia.
  rewrite Nat.min_0_l, Nat.max_0_l, drop_0. f_equal. lia.
Qed.

(** One digit prints as one code unit, itself a digit. *)
Lemma number_to_string_digit (n : nat) :
  n < 10 → ∃ c, number_to_string n = [c] ∧ is_digit c = true ∧ is_special c = false.
Proof.
  intros Hn.
  do 10 (destruct n as [|n]; [eexists; split; [reflexivity|]; vm_compute; split; reflexivity|]).
  lia.
Qed.

(** [String(n)] is a non-empty run of digits. *)
Lemma number_to_string_digits (n : nat) :
  number_to_string n ≠ [] ∧ Forall (λ c, is_digit c = true) (number_to_string n).
Proof.
  unfold number_to_string. split.
  - assert (Hn : Nat.to_uint n ≠ Nil).
    { rewrite <- (Unsigned.of_to n), Unsigned.to_of. apply unorm_nonnil. }
    destruct (Nat.to_uint n); done.
  - induction (Nat.to_uint n); simpl; by constructor.
Qed.

(** Filtering with two predicates that agree on the list's elements. *)
Lemma filter_ext_elem {A} (P Q : A → Prop) `{∀ x, Decision (P x)} `{∀ x, Decision (Q x)} (l : list A) :
  (∀ x, x ∈ l → P x ↔ Q x) → filter P l = filter Q l.
Proof.
  induction l as [|x l IH]; intros Hpq; [done|].
  rewrite !filter_cons. rewrite IH by (intros y Hy; apply Hpq; by right).
  assert (Hx : P x ↔ Q x) by (apply Hpq; left).
  destruct (decide (P x)), (decide (Q x)); first [done | exfalso; tauto].
Qed.

(** [number_to_string] and [parse_number] round-trip. *)
Lemma parse_number_to_string (n : nat) : parse_number (number_to_string n) = Some n.
Proof.
  unfold parse_number, number_to_string. rewrite string_of_list_ascii_of_string, NilEmpty.usu.
  simpl. by rewrite DecimalNat.Unsigned.of_to.
Qed.

Lemma split_no_sep (sep : ascii) (a : jstr) : sep ∉ a → split sep a = [a].
Proof.
  induction a as [|c a IH]; intros Ha; [done|]. simpl.
  rewrite IH by (intros ?; apply Ha; by right). rewrite decide_False; [done|].
  intros ->. apply Ha. by left.
Qed.

Lemma split_app_sep (sep : ascii) (a b : jstr) :
  sep ∉ a → split sep (a ++ sep :: b) = a :: split sep b.
Proof.
  induction a as [|c a IH]; intros Ha; simpl; [by rewrite decide_True|].
  rewrite IH by (intros ?; apply Ha; by right). rewrite decide_False; [done|].
  intros ->. apply Ha. by left.
Qed.
