(* ===== verification/Random.v ===== *)
(** * Random: the randomness the generators consume

    The code draws random numbers in two ways:
    - [Math.floor(Math.random() * k)] in signup.js (separator, padding
      digits, back-fill) — [mathRandomInt];
    - [secureRandomNumber(max)] in src/js/script.js, which stores one
      [crypto.getRandomValues] word in a [Uint32Array] and takes it
      modulo [max] — [secureRandomNumber].

    Both read from a stream of raw values ([Stream]) threaded through a
    small state monad [Rnd] (stdpp's [mret]/[≫=] and [x ← m; k]).
    A theorem quantified over every stream holds for every outcome of
    the random source.  [Math.random()] is the double [m / 2^53] with
    [m] the raw value reduced to 53 bits (the engine's generator);
    the product with [k] is taken exactly, the rounding of the double
    multiplication is not modelled.  A [Uint32Array] element stores its
    value modulo 2^32, as ECMAScript's ToUint32 does.

    The padding loop of both generators is [pad_loop] (fuelled) and
    [pad_exec] (the [while] statement as a big-step relation); the
    theorems show the loop terminates and the two agree. *)

From Stdlib Require Import Ascii String ZArith.
From stdpp Require Import base list.
From S2P Require Import Prelude.

(** An infinite stream of raw random values. *)
Definition Stream := nat → Z.

Definition Rnd (A : Type) : Type := Stream → A * Stream.

#[export] Instance rnd_ret : MRet Rnd := λ A x s, (x, s).
#[export] Instance rnd_bind : MBind Rnd :=
  λ A B f m s, let '(a, s') := m s in f a s'.

(** The next raw value. *)
Definition next_raw : Rnd Z := λ s, (s 0%nat, λ i, s (S i)).

(** [Math.floor(Math.random() * k)]. *)
Definition mathRandomInt (k : Z) : Rnd Z :=
  m ← next_raw; mret ((m mod 2 ^ 53) * k / 2 ^ 53)%Z.

(** [secureRandomNumber(max)] of script.js. *)
Definition secureRandomNumber (max : Z) : Rnd Z :=
  u ← next_raw; mret ((u mod 2 ^ 32) mod max)%Z.

(** ** Interface: a uniform draw below a bound

    What the generators need of a draw: it lands in [[0, k)].  Clients
    (the padding loops, the back-fill) are proved against this class;
    the two instances discharge it. *)
Class UniformDraw (draw : Z → Rnd Z) : Prop :=
  draw_range : ∀ k s, (0 < k)%Z → (0 ≤ (draw k s).1 < k)%Z.

(** Running a bind. *)
Lemma rnd_bind_run {A B} (m : Rnd A) (f : A → Rnd B) s :
  (m ≫= f) s = f (m s).1 (m s).2.
Proof. unfold mbind, rnd_bind. by destruct (m s). Qed.

Lemma rnd_ret_run {A} (x : A) s : (mret x : Rnd A) s = (x, s).
Proof. reflexivity. Qed.

Create Rewrite HintDb rndrw.
#[export] Hint Rewrite @rnd_bind_run @rnd_ret_run : rndrw.

#[export] Instance mathRandomInt_uniform : UniformDraw mathRandomInt.
Proof.
  intros k s Hk. unfold mathRandomInt. simpl.
  pose proof (Z.mod_pos_bound (s 0%nat) (2 ^ 53) ltac:(lia)) as Hm.
  split.
  - apply Z.div_pos; lia.
  - apply Z.div_lt_upper_bound; [lia|]. nia.
Qed.

#[export] Instance secureRandomNumber_uniform : UniformDraw secureRandomNumber.
Proof. intros k s Hk. unfold secureRandomNumber. simpl. apply Z.mod_pos_bound; lia. Qed.

(** ** Padding loops

    Both generators end with [while (password.length < min) password +=
    digit], where [digit] is a draw printed as a number.  The loop is a
    fixpoint on fuel; [pad_fuel] below shows that [min] iterations are
    always enough, whatever the start. *)
Fixpoint pad_loop (digit : Rnd Z) (min fuel : nat) (password : jstr) : Rnd jstr :=
  match fuel with
  | O => mret password
  | S fuel' =>
      if decide (length password < min) then
        d ← digit; pad_loop digit min fuel' (password ++ z_to_string d)
      else mret password
  end.

Lemma z_to_string_digit (d : Z) :
  (0 ≤ d < 10)%Z → ∃ c, z_to_string d = [c] ∧ is_digit c = true ∧ is_special c = false.
Proof. intros Hd. apply number_to_string_digit. lia. Qed.

(** One iteration of the loop, unfolded. *)
Lemma pad_loop_S digit min fuel password s :
  pad_loop digit min (S fuel) password s =
  if decide (length password < min)
  then pad_loop digit min fuel (password ++ z_to_string (digit s).1) (digit s).2
  else (password, s).
Proof. simpl. case_decide; [|done]. unfold mbind, rnd_bind. by destruct (digit s). Qed.

(** The loop does nothing once the bound is reached. *)
Lemma pad_loop_done digit min fuel password s :
  min ≤ length password → pad_loop digit min (S fuel) password s = (password, s).
Proof. intros H. rewrite pad_loop_S. by rewrite decide_False by lia. Qed.

Section Padding.
Context (draw : Z → Rnd Z) `{!UniformDraw draw} (k : Z).
Hypothesis Hk : (0 < k ≤ 10)%Z.

(** One draw of the loop prints as one digit. *)
Lemma pad_draw_digit s :
  ∃ c, z_to_string (draw k s).1 = [c] ∧ is_digit c = true ∧ is_special c = false.
Proof. apply z_to_string_digit. pose proof (draw_range k s). lia. Qed.

(** With enough fuel the loop returns [password] followed by digits,
    and the result has length [max min (length password)]. *)
Lemma pad_loop_spec min fuel password s :
  min - length password ≤ fuel →
  let r := (pad_loop (draw k) min fuel password s).1 in
  length r = min `max` length password ∧
  ∃ pad, r = password ++ pad ∧ Forall (λ c, is_digit c = true ∧ is_special c = false) pad.
Proof.
  revert password s. induction fuel as [|fuel IH]; intros password s Hf.
  - simpl. split; [lia|]. exists []. by rewrite app_nil_r.
  - rewrite pad_loop_S. case_decide as Hlt.
    + destruct (pad_draw_digit s) as (c & -> & Hdig & Hsp).
      destruct (IH (password ++ [c]) (draw k s).2) as [Hlen (pad & Hr & Hpad)];
        [rewrite length_app; simpl; lia|].
      split; [rewrite Hlen, length_app; simpl; lia|].
      exists (c :: pad). rewrite Hr, <- app_assoc. split; [done|]. by constructor.
    + simpl. split; [lia|]. exists []. by rewrite app_nil_r.
Qed.

(** Fuel beyond what the loop needs changes nothing. *)
Lemma pad_loop_fuel min fuel fuel' password s :
  min - length password ≤ fuel → fuel ≤ fuel' →
  pad_loop (draw k) min fuel' password s = pad_loop (draw k) min fuel password s.
Proof.
  revert fuel' password s. induction fuel as [|fuel IH]; intros fuel' password s Hf Hle.
  - destruct fuel' as [|fuel']; [done|]. rewrite pad_loop_S. by rewrite decide_False by lia.
  - destruct fuel' as [|fuel']; [lia|]. rewrite !pad_loop_S. case_decide; [|done].
    destruct (pad_draw_digit s) as (c & -> & _). apply IH; [rewrite length_app; simpl|]; lia.
Qed.
End Padding.

(** ** The padding loop as a [while] statement

    [pad_exec digit min p s p' s'] is the big-step semantics of
    [while (p.length < min) p += digit()] with no fuel: the loop run from
    the password [p] and the stream [s] stops with [p'] and [s'].  The
    theorems below show that it always stops, whatever the draws (each
    iteration appends at least one unit, so [min - length p] decreases),
    that it is deterministic, and that [pad_loop] with enough fuel
    computes exactly its result. *)
Inductive pad_exec (digit : Rnd Z) (min : nat) : jstr → Stream → jstr → Stream → Prop :=
| pad_exit p s : ¬ length p < min → pad_exec digit min p s p s
| pad_iter p s p' s' :
    length p < min →
    pad_exec digit min (p ++ z_to_string (digit s).1) (digit s).2 p' s' →
    pad_exec digit min p s p' s'.

Lemma length_z_to_string_pos (d : Z) : 1 ≤ length (z_to_string d).
Proof.
  destruct (number_to_string_digits (Z.to_nat d)) as [Hne _].
  unfold z_to_string. destruct (number_to_string _); [done|simpl; lia].
Qed.

(** The fuelled loop, given at least [min - length p] fuel, is a run of
    the [while] statement. *)
Lemma pad_loop_exec digit min fuel p s :
  min - length p ≤ fuel →
  pad_exec digit min p s (pad_loop digit min fuel p s).1 (pad_loop digit min fuel p s).2.
Proof.
  revert p s. induction fuel as [|fuel IH]; intros p s Hf.
  - simpl. apply pad_exit. lia.
  - rewrite pad_loop_S. case_decide as Hlt; [|by apply pad_exit].
    apply pad_iter; [done|]. apply IH.
    pose proof (length_z_to_string_pos (digit s).1). rewrite length_app. idtac. lia.
Qed.

Lemma pad_exec_det digit min p s p1 s1 p2 s2 :
  pad_exec digit min p s p1 s1 → pad_exec digit min p s p2 s2 → p1 = p2 ∧ s1 = s2.
Proof.
  intros H1. revert p2 s2. induction H1 as [p s Hge|p s p' s' Hlt _ IH]; intros p2 s2 H2;
    inversion H2; subst; [done|lia|lia|]. by apply IH.
Qed.

(** ** Counting the draws of [secureRandomNumber]

    How many of the 2^32 words give each result: the count of [u < n]
    with [u mod m = r]. *)
Lemma count_residues (n m r : nat) :
  0 < m → r < m →
  length (filter (λ u, u `mod` m = r) (seq 0 n)) =
  n `div` m + (if decide (r < n `mod` m) then 1 else 0).
Proof.
  intros Hm Hr. induction n as [|n IH].
  - rewrite Nat.Div0.div_0_l, Nat.Div0.mod_0_l. by rewrite decide_False by lia.
  - rewrite seq_S, filter_app, length_app, IH. simpl.
    pose proof (Nat.div_mod_eq n m) as Hdm. pose proof (Nat.mod_upper_bound n m ltac:(lia)) as Hk.
    set (q := n `div` m) in *. set (k := n `mod` m) in *.
    destruct (decide (k + 1 = m)) as [Hlast|Hlast].
    + assert (E1 : S n `mod` m = 0) by (symmetry; apply (Nat.mod_unique _ _ (q + 1)); lia).
      assert (E2 : S n `div` m = q + 1) by (symmetry; apply (Nat.div_unique _ _ _ 0); lia).
      rewrite E1, E2.
      rewrite filter_cons, filter_nil. fold k. repeat case_decide; simpl; lia.
    + assert (E1 : S n `mod` m = k + 1) by (symmetry; apply (Nat.mod_unique _ _ q); lia).
      assert (E2 : S n `div` m = q) by (symmetry; apply (Nat.div_unique _ _ _ (k + 1)); lia).
      rewrite E1, E2. rewrite filter_cons, filter_nil. fold k. repeat case_decide; simpl; lia.
Qed.

(** C23: [secureRandomNumber(max)] is not uniform when [max] does not
    divide 2^32: of the 2^32 words [crypto.getRandomValues] can return,
    the results below [2^32 mod max] are each reached by one word more
    than the others. *)
Theorem secureRandomNumber_counts (max r : nat) :
  0 < max → r < max →
  length (filter (λ u : nat, (secureRandomNumber (Z.of_nat max) (λ _, Z.of_nat u)).1 = Z.of_nat r)
                 (seq 0 (2 ^ 32)))
  = 2 ^ 32 `div` max + (if decide (r < 2 ^ 32 `mod` max) then 1 else 0).
Proof.
  intros Hm Hr. rewrite <- count_residues by done. f_equal. apply filter_ext_elem.
  intros u Hu. apply elem_of_seq in Hu. unfold secureRandomNumber. simpl.
  assert (Hu' : (Z.of_nat u < 2 ^ 32)%Z).
  { replace (2 ^ 32)%Z with (Z.of_nat (2 ^ 32)) by (rewrite Nat2Z.inj_pow; reflexivity). lia. }
  rewrite (Z.mod_small (Z.of_nat u)) by lia. rewrite <- Nat2Z.inj_mod. lia.
Qed.

Lemma secureRandomNumber_counts_witness :
  0 < 7 ∧ 0 < 7 ∧
  length (filter (λ u : nat, (secureRandomNumber (Z.of_nat 7) (λ _, Z.of_nat u)).1 = Z.of_nat 0)
                 (seq 0 (2 ^ 32)))
  = 2 ^ 32 `div` 7 + (if decide (0 < 2 ^ 32 `mod` 7) then 1 else 0).
Proof. split; [lia|]. split; [lia|]. apply secureRandomNumber_counts; lia. Defined.

(** C14: the padding [while] loop terminates from every password and for
    every sequence of draws: each iteration appends at least one unit. *)
Theorem pad_exec_terminates (digit : Rnd Z) (min : nat) (p : jstr) (s : Stream) :
  ∃ p' s', pad_exec digit min p s p' s'.
Proof. eexists _, _. apply (pad_loop_exec digit min min). lia. Qed.

(** With at least [min - length p] fuel, [pad_loop] returns exactly the
    final state of the [while] loop, and nothing else: the fuel of the
    executable model is never the reason it stops. *)
Lemma pad_loop_refines (digit : Rnd Z) (min fuel : nat) (p : jstr) (s : Stream) (p' : jstr) (s' : Stream) :
  min - length p ≤ fuel →
  pad_loop digit min fuel p s = (p', s') ↔ pad_exec digit min p s p' s'.
Proof.
  intros Hf. pose proof (pad_loop_exec digit min fuel p s Hf) as Hex. split.
  - intros Heq. by rewrite Heq in Hex.
  - intros H. destruct (pad_exec_det _ _ _ _ _ _ _ _ Hex H) as [<- <-].
    by destruct (pad_loop digit min fuel p s).
Qed.

