(* ===== verification/Transform.v ===== *)
(** * Transform: [transformAnswer] of src/signup.js

    The question categories ([Category], the [case] labels of the
    [switch], signup.js 148-162), the per-category capitalisation
    and the five case-insensitive leet replacements, composed as in
    [transformAnswer] (signup.js 144-178).  An unknown type falls
    through the [switch] and only the replacements apply.  The case
    mapping is the one of 7-bit code units ([Prelude.char_toUpper]);
    the length theorem is stated for such answers. *)

From Stdlib Require Import Ascii String ZArith.
From stdpp Require Import base list.
From S2P Require Import Prelude.

Local Open Scope char_scope.

Inductive Category := Pet | Mother | City | Car | School | Movie | Food.

#[export] Instance Category_eq_dec : EqDecision Category.
Proof. solve_decision. Qed.

(** The [case] label of the [switch] a [type] string selects, if any
    (the option values of the question lists, signup.js 41-47). *)
Definition category_of_value (type : jstr) : option Category :=
  if decide (type = ‹"pet"›) then Some Pet
  else if decide (type = ‹"mother"›) then Some Mother
  else if decide (type = ‹"city"›) then Some City
  else if decide (type = ‹"car"›) then Some Car
  else if decide (type = ‹"school"›) then Some School
  else if decide (type = ‹"movie"›) then Some Movie
  else if decide (type = ‹"food"›) then Some Food
  else None.

(** [w.charAt(0).toUpperCase() + w.slice(1).toLowerCase()] *)
Definition capitalize (w : jstr) : jstr :=
  toUpperCase (charAt w 0) ++ toLowerCase (slice_from w 1).

(** The five replacements, in the order of the code. *)
Definition leet (t : jstr) : jstr :=
  let t := replace_ci "a" "@" t in
  let t := replace_ci "s" "$" t in
  let t := replace_ci "i" "!" t in
  let t := replace_ci "o" "0" t in
  replace_ci "e" "3" t.

Definition transformAnswer (answer type : jstr) : jstr :=
  let transformed :=
    match category_of_value type with
    | Some (Pet | Mother | City | School) => capitalize answer
    | Some Car => join [] (map capitalize (split " " answer))
    | Some (Movie | Food) => join [] (map capitalize (split " " answer))
    | None => answer
    end in
  leet transformed.

(** ** Reference: the replacements as one character map *)

Definition leet_char (c : ascii) : ascii :=
  if decide (c = "a" ∨ c = "A") then "@"
  else if decide (c = "s" ∨ c = "S") then "$"
  else if decide (c = "i" ∨ c = "I") then "!"
  else if decide (c = "o" ∨ c = "O") then "0"
  else if decide (c = "e" ∨ c = "E") then "3"
  else c.

(** ** Lemmas *)

Lemma leet_char_passes (c : ascii) :
  leet_char c =
  replace_ci_char "e" "3" (replace_ci_char "o" "0" (replace_ci_char "i" "!"
    (replace_ci_char "s" "$" (replace_ci_char "a" "@" c)))).
Proof. destruct c as [[] [] [] [] [] [] [] []]; vm_compute; reflexivity. Qed.

(** The characters [leet_char] never returns. *)
Definition leet_source (c : ascii) : bool :=
  bool_decide (c ∈ ["a"; "A"; "s"; "S"; "i"; "I"; "o"; "O"; "e"; "E"]).

Lemma leet_char_no_source c : leet_source (leet_char c) = false.
Proof. destruct c as [[] [] [] [] [] [] [] []]; reflexivity. Qed.

Lemma leet_char_not_upper c : is_upper c = false → is_upper (leet_char c) = false.
Proof. destruct c as [[] [] [] [] [] [] [] []]; vm_compute; congruence. Qed.

Lemma char_toLower_not_upper c : is_upper (char_toLower c) = false.
Proof. destruct c as [[] [] [] [] [] [] [] []]; reflexivity. Qed.

Lemma length_capitalize w : length (capitalize w) = length w.
Proof. destruct w; simpl; [done|]. unfold slice_from. simpl. by rewrite length_toLowerCase. Qed.

Lemma length_join_nil (ps : list jstr) : length (join [] ps) = sum_list (map length ps).
Proof. induction ps as [|p [|q ps] IH]; simpl in *; rewrite ?length_app; lia. Qed.

(** The fields of [s.split(sep)] hold every unit of [s] but the separators. *)
Lemma split_lengths sep (s : jstr) :
  sum_list (map length (split sep s)) + length (filter (λ c, c = sep) s) = length s.
Proof.
  induction s as [|c s IH]; [done|]. simpl.
  rewrite filter_cons. case_decide as Hc; simpl in *.
  - lia.
  - destruct (split sep s) as [|p ps]; simpl in *; lia.
Qed.

Lemma length_join_capitalize sep (s : jstr) :
  length (join [] (map capitalize (split sep s))) + length (filter (λ c, c = sep) s) = length s.
Proof.
  rewrite length_join_nil, <- (split_lengths sep s). f_equal. f_equal.
  rewrite map_map. apply map_ext. apply length_capitalize.
Qed.

#[export] Hint Rewrite length_capitalize : jsrw.

Lemma leet_char_commute (c : ascii) :
  leet_char c =
  replace_ci_char "a" "@" (replace_ci_char "s" "$" (replace_ci_char "i" "!"
    (replace_ci_char "o" "0" (replace_ci_char "e" "3" c)))).
Proof. destruct c as [[] [] [] [] [] [] [] []]; vm_compute; reflexivity. Qed.

Lemma join_nil_concat (ps : list jstr) : join [] ps = concat ps.
Proof. induction ps as [|p [|q ps] IH]; simpl in *; rewrite ?app_nil_r; congruence. Qed.

(** ** Properties *)

(** C29: the five passes [replace(/a/gi,'@')] ... [replace(/e/gi,'3')] of
    [transformAnswer] compute the one-pass character map [leet_char]. *)
Theorem leet_single_pass (t : jstr) : leet t = map leet_char t.
Proof.
  unfold leet, replace_ci. rewrite !map_map. apply map_ext. intros c.
  by rewrite leet_char_passes.
Qed.

(** C35: the order of the five replacements does not matter: no
    replacement produces a letter a later one matches, so the passes in
    reverse order give the same string. *)
Theorem leet_order_irrelevant (t : jstr) :
  leet t =
  replace_ci "a" "@" (replace_ci "s" "$" (replace_ci "i" "!"
    (replace_ci "o" "0" (replace_ci "e" "3" t)))).
Proof.
  rewrite leet_single_pass. unfold replace_ci. rewrite !map_map.
  apply map_ext. apply leet_char_commute.
Qed.

(** No transformed answer contains a, s, i, o or e in either case,
    whatever the category. *)
Theorem transformAnswer_no_leet_letters (answer type : jstr) :
  Forall (λ c, leet_source c = false) (transformAnswer answer type).
Proof.
  unfold transformAnswer. rewrite leet_single_pass. apply Forall_map.
  apply Forall_forall. intros c _. apply leet_char_no_source.
Qed.

(** C30: the length of a transformed answer made of 7-bit code units
    (the range where [toUpperCase]/[toLowerCase] map one unit to one
    unit; the engine maps e.g. [ß] to [SS]): unchanged for the one-word
    categories and for an unknown type, minus the spaces for car, movie
    and food (the words are joined without a separator). *)
Theorem transformAnswer_length (answer type : jstr) :
  Forall (λ c, code c < 128) answer →
  length (transformAnswer answer type) =
  match category_of_value type with
  | Some (Car | Movie | Food) => length answer - length (filter (λ c, c = " ") answer)
  | _ => length answer
  end.
Proof.
  intros _. unfold transformAnswer. rewrite leet_single_pass, length_map.
  pose proof (length_join_capitalize " " answer).
  destruct (category_of_value type) as [[]|]; rewrite ?length_capitalize; lia.
Qed.

Lemma transformAnswer_length_witness :
  Forall (λ c, code c < 128) ‹"Blade Runner"› ∧
  length (transformAnswer ‹"Blade Runner"› ‹"movie"›) = 11.
Proof.
  assert (H : Forall (λ c, code c < 128) ‹"Blade Runner"›) by (repeat constructor; cbv; lia).
  split; [exact H|]. rewrite (transformAnswer_length _ ‹"movie"› H). reflexivity.
Defined.

(** For pet, mother, city and school the first unit is upper-cased,
    every other unit lower-cased, and the result leet-substituted. *)
Theorem transformAnswer_simple (c : ascii) (answer type : jstr) (cat : Category) :
  category_of_value type = Some cat → cat ∈ [Pet; Mother; City; School] →
  transformAnswer (c :: answer) type =
  leet_char (char_toUpper c) :: map (λ x, leet_char (char_toLower x)) answer.
Proof.
  intros Hcat Hin. unfold transformAnswer. rewrite Hcat, leet_single_pass.
  assert (Hc : capitalize (c :: answer) = char_toUpper c :: toLowerCase answer) by reflexivity.
  unfold toLowerCase in Hc.
  repeat (apply elem_of_cons in Hin as [->|Hin]; [by rewrite Hc; simpl; rewrite map_map|]).
  by apply not_elem_of_nil in Hin.
Qed.

Lemma transformAnswer_simple_witness :
  category_of_value ‹"pet"› = Some Pet ∧ Pet ∈ [Pet; Mother; City; School] ∧
  transformAnswer ("r" :: ‹"ex"›) ‹"pet"› = ‹"R3x"›.
Proof.
  split; [reflexivity|]. split; [by left|].
  rewrite (transformAnswer_simple "r" ‹"ex"› ‹"pet"› Pet); [reflexivity|reflexivity|by left].
Defined.

(** The spec's example: "Rex" as a pet and "Boston" as a city become
    "R3x" and "B0$t0n". *)
Example transformAnswer_spec_examples :
  transformAnswer ‹"Rex"› ‹"pet"› = ‹"R3x"› ∧ transformAnswer ‹"Boston"› ‹"city"› = ‹"B0$t0n"›.
Proof. split; reflexivity. Qed.

(** Signup's [transformAnswer] does not strip non-letters (the spec's
    step 1): digits and punctuation of an answer are kept. *)
Example transformAnswer_keeps_non_letters :
  transformAnswer ‹"R2-D2"› ‹"pet"› = ‹"R2-d2"›.
Proof. reflexivity. Qed.
