(* ===== verification/Complexity.v ===== *)
(** * Complexity: [ensureComplexity] of src/signup.js

    The complexity back-fill (signup.js 180-201) as four steps, one per
    [if] of the code: [fix_upper] and [fix_lower] overwrite the first or
    the last unit, [fix_digit] and [fix_special] append a random digit or
    a random entry of [DEFAULT_SYMBOLS].  The appending steps draw from
    [Math.random] ([Random.mathRandomInt]).

    The theorems show what the back-fill guarantees (a lowercase letter,
    a digit and a special character, so at least three classes), its
    length bounds, that it leaves a complete password alone, and exactly
    when it returns no uppercase letter: the lowercase overwrite erases
    an uppercase letter in the last unit; such an output is changed by a
    second application. *)

From Stdlib Require Import Ascii String ZArith.
From stdpp Require Import base list.
From S2P Require Import Prelude Random.

Local Open Scope char_scope.

(** [const DEFAULT_SYMBOLS = ["@", "#", "$", "!"]] *)
Definition DEFAULT_SYMBOLS : list jstr := [‹"@"›; ‹"#"›; ‹"$"›; ‹"!"›].

(** [DEFAULT_SYMBOLS[Math.floor(Math.random() * DEFAULT_SYMBOLS.length)]];
    an index out of range would read [undefined], which [+=] prints. *)
Definition randomSymbol : Rnd jstr :=
  i ← mathRandomInt (Z.of_nat (length DEFAULT_SYMBOLS));
  mret (default ‹"undefined"› (DEFAULT_SYMBOLS !! Z.to_nat i)).

(** [if (!/[A-Z]/.test(result)) result = 'A' + result.substring(1)] *)
Definition fix_upper (result : jstr) : jstr :=
  if hasUpper result then result else ‹"A"› ++ substring_from result 1.

(** [if (!/[a-z]/.test(result))
       result = result.substring(0, result.length - 1) + 'a'] *)
Definition fix_lower (result : jstr) : jstr :=
  if hasLower result then result
  else substring result 0 (Z.of_nat (length result) - 1) ++ ‹"a"›.

(** [if (!/\d/.test(result)) result += Math.floor(Math.random() * 10)] *)
Definition fix_digit (result : jstr) : Rnd jstr :=
  if hasDigit result then mret result
  else d ← mathRandomInt 10; mret (result ++ z_to_string d).

(** [if (!/[...special...]/.test(result)) result += DEFAULT_SYMBOLS[...]] *)
Definition fix_special (result : jstr) : Rnd jstr :=
  if hasSpecial result then mret result
  else sym ← randomSymbol; mret (result ++ sym).

Definition ensureComplexity (password : jstr) : Rnd jstr :=
  let result := fix_lower (fix_upper password) in
  result ← fix_digit result;
  fix_special result.

(** ** Lemmas *)

(** The symbols are single special characters. *)
Lemma DEFAULT_SYMBOLS_special i :
  i < 4 → ∃ c, default ‹"undefined"› (DEFAULT_SYMBOLS !! i) = [c] ∧
    is_special c = true ∧ is_digit c = false ∧ is_upper c = false ∧ is_lower c = false.
Proof. intros Hi. do 4 (destruct i as [|i]; [eexists; split; [reflexivity|]; vm_compute; tauto|]). lia. Qed.

Lemma randomSymbol_spec s :
  ∃ c, (randomSymbol s).1 = [c] ∧ is_special c = true ∧ is_digit c = false ∧
       is_upper c = false ∧ is_lower c = false.
Proof.
  unfold randomSymbol. rewrite rnd_bind_run, rnd_ret_run.
  change (Z.of_nat (length DEFAULT_SYMBOLS)) with 4%Z.
  pose proof (draw_range (draw := mathRandomInt) 4 s ltac:(lia)) as Hr.
  apply DEFAULT_SYMBOLS_special. lia.
Qed.

Lemma randomSymbol_in s : (randomSymbol s).1 ∈ DEFAULT_SYMBOLS.
Proof.
  unfold randomSymbol. rewrite rnd_bind_run, rnd_ret_run.
  change (Z.of_nat (length DEFAULT_SYMBOLS)) with 4%Z.
  pose proof (draw_range (draw := mathRandomInt) 4 s ltac:(lia)) as Hr.
  destruct (Z.to_nat (mathRandomInt 4 s).1) as [|[|[|[|n]]]] eqn:E;
    [simpl; repeat constructor..|lia].
Qed.

Lemma fix_digit_spec r s :
  let r' := (fix_digit r s).1 in
  hasDigit r' = true ∧ ∃ suf, r' = r ++ suf ∧
    Forall (λ c, is_special c = false ∧ is_upper c = false ∧ is_lower c = false) suf.
Proof.
  unfold fix_digit. destruct (hasDigit r) eqn:Hd.
  - simpl. split; [done|]. exists []. by rewrite app_nil_r.
  - rewrite rnd_bind_run, rnd_ret_run.
    pose proof (draw_range (draw := mathRandomInt) 10 s ltac:(lia)) as Hr.
    destruct (z_to_string_digit (mathRandomInt 10 s).1) as (c & -> & Hc & Hs); [lia|].
    simpl. split; [unfold_classes; rewrite regex_test_app; simpl; by rewrite Hc, orb_true_r|].
    exists [c]. split; [done|]. constructor; [|constructor].
    split; [done|]. by apply digit_not_letter.
Qed.

Lemma fix_special_spec r s :
  let r' := (fix_special r s).1 in
  hasSpecial r' = true ∧ ∃ suf, r' = r ++ suf ∧ length suf ≤ 1 ∧
    Forall (λ c, is_digit c = false ∧ is_upper c = false ∧ is_lower c = false) suf.
Proof.
  unfold fix_special. destruct (hasSpecial r) eqn:Hs.
  - simpl. split; [done|]. exists []. rewrite app_nil_r. auto.
  - rewrite rnd_bind_run, rnd_ret_run.
    destruct (randomSymbol_spec s) as (c & -> & Hc & Hd & Hu & Hl). simpl.
    split; [unfold_classes; rewrite regex_test_app; simpl; by rewrite Hc, orb_true_r|].
    exists [c]. split; [done|]. split; [simpl; lia|]. by repeat constructor.
Qed.

Lemma fix_digit_length r s : length r ≤ length (fix_digit r s).1 ≤ length r + 1.
Proof.
  unfold fix_digit. destruct (hasDigit r); [simpl; lia|].
  rewrite rnd_bind_run, rnd_ret_run.
  pose proof (draw_range (draw := mathRandomInt) 10 s ltac:(lia)) as Hr.
  destruct (z_to_string_digit (mathRandomInt 10 s).1) as (c & -> & _); [lia|].
  simpl. rewrite length_app. simpl. lia.
Qed.

Lemma fix_upper_length p : length (fix_upper p) = length p `max` 1.
Proof.
  unfold fix_upper. destruct (hasUpper p) eqn:E.
  - destruct p; [discriminate|simpl; lia].
  - change 1%Z with (Z.of_nat 1). destruct p as [|c p]; [done|].
    rewrite substring_from_drop by (simpl; lia). simpl. rewrite drop_0. lia.
Qed.

Lemma fix_lower_length r : 1 ≤ length r → length (fix_lower r) = length r.
Proof.
  intros Hr. unfold fix_lower. destruct (hasLower r); [done|].
  rewrite substring_prefix by lia. rewrite length_app, length_take. simpl. lia.
Qed.

Lemma fix_lower_has_lower r : hasLower (fix_lower r) = true.
Proof.
  unfold fix_lower. destruct (hasLower r) eqn:E; [done|].
  unfold_classes. rewrite regex_test_app. simpl. by rewrite ?orb_true_r.
Qed.

Lemma ensureComplexity_run p s :
  ensureComplexity p s =
  fix_special (fix_digit (fix_lower (fix_upper p)) s).1 (fix_digit (fix_lower (fix_upper p)) s).2.
Proof. unfold ensureComplexity. by rewrite rnd_bind_run. Qed.

Lemma has_class_app_l p (s t : jstr) : regex_test p s = true → regex_test p (s ++ t) = true.
Proof. intros H. by rewrite regex_test_app, H. Qed.

#[export] Hint Resolve has_class_app_l fix_lower_has_lower : jsdb.

(** Appending units of no class changes no class test. *)
Lemma regex_test_app_none p (r suf : jstr) :
  Forall (λ c, p c = false) suf → regex_test p (r ++ suf) = regex_test p r.
Proof.
  intros Hs. rewrite regex_test_app. replace (regex_test p suf) with false; [apply orb_false_r|].
  symmetry. apply regex_test_false. intros c Hc. by eapply Forall_forall in Hs.
Qed.

(** The two appending steps add no letter and keep the first unit. *)
Lemma ensureComplexity_appends p s :
  ∃ suf, (ensureComplexity p s).1 = fix_lower (fix_upper p) ++ suf ∧
    Forall (λ c, is_upper c = false ∧ is_lower c = false) suf ∧
    hasDigit (ensureComplexity p s).1 = true ∧ hasSpecial (ensureComplexity p s).1 = true.
Proof.
  rewrite ensureComplexity_run. set (r2 := fix_lower (fix_upper p)).
  destruct (fix_digit_spec r2 s) as [Hd (suf & Hr & Hsuf)].
  destruct (fix_special_spec (fix_digit r2 s).1 (fix_digit r2 s).2) as [Hs (suf' & Hr' & _ & Hsuf')].
  exists (suf ++ suf'). split_and!.
  - by rewrite Hr', Hr, <- app_assoc.
  - apply Forall_app. split; [by eapply Forall_impl; [apply Hsuf|]; intros c (_ & ? & ?)|].
    by eapply Forall_impl; [apply Hsuf'|]; intros c (_ & ? & ?).
  - rewrite Hr'. by apply has_class_app_l.
  - exact Hs.
Qed.

Lemma ensureComplexity_hasUpper p s :
  hasUpper (ensureComplexity p s).1 = hasUpper (fix_lower (fix_upper p)).
Proof.
  destruct (ensureComplexity_appends p s) as (suf & -> & Hsuf & _).
  apply regex_test_app_none. by eapply Forall_impl; [apply Hsuf|]; intros c [? _].
Qed.

(** The lowercase step keeps the uppercase letters of all but the last
    unit, and those of the last unit only when it does not fire. *)
Lemma hasUpper_fix_lower r :
  hasUpper (fix_lower r) = if hasLower r then hasUpper r else hasUpper (take (length r - 1) r).
Proof.
  unfold fix_lower. destruct (hasLower r); [done|].
  unfold hasUpper at 1. rewrite regex_test_app. change (regex_test is_upper ‹"a"›) with false.
  rewrite orb_false_r. destruct r as [|c r]; [reflexivity|].
  rewrite substring_prefix by (simpl; lia). do 2 f_equal. simpl length. lia.
Qed.

Lemma fix_upper_no_upper p : hasUpper p = false → fix_upper p = "A"%char :: drop 1 p.
Proof.
  intros Hu. unfold fix_upper. rewrite Hu. destruct p as [|c p]; [reflexivity|].
  change 1%Z with (Z.of_nat 1). by rewrite substring_from_drop by (simpl; lia).
Qed.

(** Every output has at least two units: a digit and a special
    character, which no unit is at once. *)
Lemma ensureComplexity_two_units p s : 2 ≤ length (ensureComplexity p s).1.
Proof.
  destruct (ensureComplexity_appends p s) as (_ & _ & _ & Hd & Hs).
  destruct (ensureComplexity p s).1 as [|c [|d r]]; [discriminate|cbn [length]|cbn [length]; lia].
  unfold hasDigit, hasSpecial in *. rewrite regex_test_cons in Hd, Hs. simpl in Hd, Hs.
  rewrite orb_false_r in Hd, Hs. by rewrite digit_not_special in Hs.
Qed.

(** On a password of two units or more without an uppercase letter,
    the first two steps leave an 'A' in front. *)
Lemma fix_head_A r : hasUpper r = false → 2 ≤ length r → ∃ rest, fix_lower (fix_upper r) = "A"%char :: rest.
Proof.
  intros Hu Hlen. rewrite fix_upper_no_upper by done.
  destruct r as [|c [|d r]]; [simpl in Hlen; lia|simpl in Hlen; lia|]. cbn [drop].
  unfold fix_lower. destruct (hasLower _); [by eexists|].
  rewrite substring_prefix by (simpl; lia).
  replace (Z.to_nat _) with (S (length r)) by (simpl; lia). by eexists.
Qed.

(** A password with an uppercase letter, no lowercase letter, and no
    uppercase letter before its last unit comes out without any. *)
Lemma ensureComplexity_last_upper p s :
  hasUpper p = true → hasLower p = false → hasUpper (take (length p - 1) p) = false →
  hasUpper (ensureComplexity p s).1 = false.
Proof.
  intros Hu Hl Ht. rewrite ensureComplexity_hasUpper, hasUpper_fix_lower.
  unfold fix_upper. by rewrite Hu, Hl.
Qed.

(** ** Properties *)

(** C2: whatever the password and the random draws, the back-filled
    password has a lowercase letter, a digit and a special character,
    so at least three of the four classes. *)
Theorem ensureComplexity_three_classes (p : jstr) (s : Stream) :
  let r := (ensureComplexity p s).1 in
  hasLower r = true ∧ hasDigit r = true ∧ hasSpecial r = true.
Proof.
  destruct (ensureComplexity_appends p s) as (suf & Hr & _ & Hd & Hs).
  split_and!; [|done|done]. rewrite Hr. apply has_class_app_l, fix_lower_has_lower.
Qed.

(** The back-fill keeps the length of a non-empty password (it
    overwrites in place) and appends at most two units; the empty
    password becomes at least one unit long. *)
Theorem ensureComplexity_length (p : jstr) (s : Stream) :
  let n := length p `max` 1 in n ≤ length (ensureComplexity p s).1 ≤ n + 2.
Proof.
  rewrite ensureComplexity_run. set (r2 := fix_lower (fix_upper p)).
  assert (H2 : length r2 = length p `max` 1)
    by (unfold r2; rewrite fix_lower_length; rewrite fix_upper_length; lia).
  pose proof (fix_digit_length r2 s) as Hd.
  destruct (fix_special_spec (fix_digit r2 s).1 (fix_digit r2 s).2) as [_ (suf & Hr & Hsuf & _)].
  simpl. rewrite Hr, length_app. lia.
Qed.

(** A password that already has all four classes is returned
    unchanged, and no random value is drawn. *)
Theorem ensureComplexity_complete (p : jstr) (s : Stream) :
  hasUpper p = true → hasLower p = true → hasDigit p = true → hasSpecial p = true →
  ensureComplexity p s = (p, s).
Proof.
  intros Hu Hl Hd Hs. rewrite ensureComplexity_run.
  unfold fix_upper, fix_lower, fix_digit, fix_special. rewrite Hu, Hl, Hd. simpl. by rewrite Hs.
Qed.

Lemma ensureComplexity_complete_witness :
  ensureComplexity ‹"Aa1!"› (λ _, 0%Z) = (‹"Aa1!"›, λ _, 0%Z).
Proof. apply ensureComplexity_complete; reflexivity. Defined.


(** C10: when the back-fill leaves no uppercase letter, exactly: it
    erases the uppercase letter it would need in two cases.  A password
    of at most one unit with no uppercase letter gets the 'A' written at
    index 0 and then overwritten by the 'a'; a password with uppercase
    letters, no lowercase letter, and none of its uppercase letters
    before the last unit loses them to the lowercase overwrite.  For
    every draw. *)
Theorem ensureComplexity_drops_upper (p : jstr) (s : Stream) :
  hasUpper (ensureComplexity p s).1 = false ↔
  (hasUpper p = false ∧ length p ≤ 1) ∨
  (hasUpper p = true ∧ hasLower p = false ∧ hasUpper (take (length p - 1) p) = false).
Proof.
  rewrite ensureComplexity_hasUpper, hasUpper_fix_lower.
  destruct (hasUpper p) eqn:Hu.
  - assert (Hf : fix_upper p = p) by (unfold fix_upper; by rewrite Hu). rewrite Hf, Hu.
    destruct (hasLower p).
    + split; [intros ?; discriminate|intros [[? _]|(_ & ? & _)]; discriminate].
    + split; [intros H; right; auto|intros [[? _]|(_ & _ & ?)]; [discriminate|done]].
  - rewrite fix_upper_no_upper by done.
    destruct p as [|c [|d p]]; [simpl; split; [intros _; left; split; [done|simpl; lia]|intros _; reflexivity]..|].
    cbn [drop length]. replace (S (S (length p)) - 1) with (S (length p)) by lia.
    destruct (hasLower ("A"%char :: d :: p)); cbn [take]; unfold hasUpper at 1; rewrite regex_test_cons;
      simpl; (split; [intros ?; discriminate|intros [[_ ?]|(? & _)]; [simpl in *; lia|discriminate]]).
Qed.

(** The overwrite collision on the empty password: the 'A' written
    at index 0 is overwritten by the 'a', so for every draw the result
    has no uppercase letter. *)
Theorem ensureComplexity_empty_no_upper (s : Stream) :
  hasUpper (ensureComplexity [] s).1 = false.
Proof.
  rewrite ensureComplexity_run.
  change (fix_lower (fix_upper [])) with ‹"a"›.
  destruct (fix_digit_spec ‹"a"› s) as [_ (suf & Hr & Hsuf)].
  destruct (fix_special_spec (fix_digit ‹"a"› s).1 (fix_digit ‹"a"› s).2)
    as [_ (suf' & Hr' & _ & Hsuf')].
  rewrite Hr', Hr. unfold_classes. apply regex_test_false. intros c Hc.
  rewrite !elem_of_app in Hc. destruct Hc as [[Hc|Hc]|Hc].
  - by apply list_elem_of_singleton in Hc as ->.
  - by eapply Forall_forall in Hsuf as (_ & ? & _); [|apply Hc].
  - by eapply Forall_forall in Hsuf' as (_ & ? & _); [|apply Hc].
Qed.

(** C36: the back-fill is not idempotent: every output it gives without
    an uppercase letter is changed by a second call, which writes an 'A'
    over its first unit, whatever the draws of either call. *)
Theorem ensureComplexity_not_idempotent (p : jstr) (s s' : Stream) :
  let r := (ensureComplexity p s).1 in
  hasUpper r = false → (ensureComplexity r s').1 ≠ r.
Proof.
  cbv zeta. set (r := (ensureComplexity p s).1). intros Hu.
  pose proof (ensureComplexity_two_units p s) as Hlen. fold r in Hlen.
  destruct (fix_head_A r Hu Hlen) as [rest Hrest].
  destruct (ensureComplexity_appends r s') as (suf & -> & _). rewrite Hrest.
  destruct r as [|c r']; [simpl in Hlen; lia|].
  intros [= Hc _]. unfold hasUpper in Hu. rewrite regex_test_cons, <- Hc in Hu. discriminate.
Qed.

Lemma ensureComplexity_not_idempotent_witness :
  hasUpper (ensureComplexity ‹"1111111111!Z"› (λ _, 0%Z)).1 = false ∧
  (ensureComplexity (ensureComplexity ‹"1111111111!Z"› (λ _, 0%Z)).1 (λ _, 0%Z)).1
  ≠ (ensureComplexity ‹"1111111111!Z"› (λ _, 0%Z)).1.
Proof.
  assert (H : hasUpper (ensureComplexity ‹"1111111111!Z"› (λ _, 0%Z)).1 = false) by (vm_compute; reflexivity).
  split; [exact H|]. exact (ensureComplexity_not_idempotent ‹"1111111111!Z"› (λ _, 0%Z) (λ _, 0%Z) H).
Defined.
