(* ===== verification/Strength.v ===== *)
(** * Strength: the three strength policies

    - [indicatorScore]/[updateStrengthIndicator]: the class-count meter
      of signup.js 203-230 (score 0..6: 2 for length >= 12 or 1 for
      length >= 8, one per class present);
    - [validatePassword]/[getPasswordStrength]: the OWASP check of
      auth.js 5-28 (five requirements, the length one included);
    - [getCharsetSize]/[checkPasswordStrength]: the entropy estimate of
      auth.js 58-81.

    [Math.log2(Math.pow(size, len))] is compared with 40 and 60 bits.
    For a real [x >= 0], [log2 x < b] iff [x < 2^b] (with log2 0 = -oo),
    so [entropy_below] decides the comparison exactly on integers; the
    rounding of the doubles (and the overflow of [Math.pow] to Infinity
    above 2^1024, which still compares as >= 60) is not modelled. *)

From Stdlib Require Import Ascii String ZArith.
From stdpp Require Import base list.
From S2P Require Import Prelude.

Inductive Tier := Weak | Fair | Strong.

#[export] Instance Tier_eq_dec : EqDecision Tier.
Proof. solve_decision. Qed.

(** Tiers are ordered weak < fair < strong. *)
Definition tier_rank (t : Tier) : nat := match t with Weak => 0 | Fair => 1 | Strong => 2 end.
Definition tier_le (t u : Tier) : Prop := tier_rank t ≤ tier_rank u.

#[export] Instance tier_le_dec : RelDecision tier_le.
Proof. intros t u. unfold tier_le. apply _. Defined.

(** ** The meter of signup.js *)

Definition length_points (password : jstr) : nat :=
  if decide (12 ≤ length password) then 2
  else if decide (8 ≤ length password) then 1 else 0.

Definition indicatorScore (password : jstr) : nat :=
  length_points password
  + Nat.b2n (hasUpper password) + Nat.b2n (hasLower password)
  + Nat.b2n (hasDigit password) + Nat.b2n (hasSpecial password).

Definition indicatorTier (password : jstr) : Tier :=
  let score := indicatorScore password in
  if decide (6 ≤ score) then Strong else if decide (4 ≤ score) then Fair else Weak.

(** What the meter writes to the page: the class of [strengthFill] and
    the text of [strengthText]. *)
Record Indicator := { fill_class : jstr; strength_text : jstr }.

Definition updateStrengthIndicator (password : jstr) : Indicator :=
  match indicatorTier password with
  | Strong => {| fill_class := ‹"strength-fill strong"›; strength_text := ‹"Strong Password"› |}
  | Fair => {| fill_class := ‹"strength-fill fair"›; strength_text := ‹"Fair Password"› |}
  | Weak => {| fill_class := ‹"strength-fill weak"›; strength_text := ‹"Weak Password"› |}
  end.

(** ** AuthUtils.validatePassword *)

Record Requirements := {
  req_length : bool; req_hasUpper : bool; req_hasLower : bool;
  req_hasNumber : bool; req_hasSpecial : bool }.

Definition requirements_of (password : jstr) : Requirements :=
  {| req_length := 8 <=? length password;
     req_hasUpper := hasUpper password;
     req_hasLower := hasLower password;
     req_hasNumber := hasDigit password;
     req_hasSpecial := hasSpecial password |}.

(** [Object.values(requirements).filter(Boolean).length] *)
Definition metRequirements (r : Requirements) : nat :=
  length (filter (λ b : bool, b = true)
    [req_length r; req_hasUpper r; req_hasLower r; req_hasNumber r; req_hasSpecial r]).

Definition getPasswordStrength (password : jstr) (met : nat) : Tier :=
  if decide (12 ≤ length password ∧ 4 ≤ met) then Strong
  else if decide (10 ≤ length password ∧ 3 ≤ met) then Fair
  else Weak.

Record Validation := {
  isValid : bool; requirements : Requirements; score : nat; strength : Tier }.

Definition validatePassword (password : jstr) : Validation :=
  let r := requirements_of password in
  let met := metRequirements r in
  {| isValid := (8 <=? length password) && (3 <=? met);
     requirements := r;
     score := met;
     strength := getPasswordStrength password met |}.

(** ** The entropy estimate *)

Definition getCharsetSize (password : jstr) : nat :=
  (if regex_test is_lower password then 26 else 0)
  + (if regex_test is_upper password then 26 else 0)
  + (if regex_test is_digit password then 10 else 0)
  + (if regex_test is_non_alnum password then 32 else 0).

(** [calculateEntropy(password) < bits], i.e.
    [log2(size ^ length) < bits]. *)
Definition entropy_below (password : jstr) (bits : nat) : bool :=
  (Z.of_nat (getCharsetSize password) ^ Z.of_nat (length password) <? 2 ^ Z.of_nat bits)%Z.

Record StrengthCheck := { check_strength : Tier; check_message : jstr }.

(** The value the promise of [checkPasswordStrength] resolves to. *)
Definition checkPasswordStrength (password : jstr) : StrengthCheck :=
  if entropy_below password 40
  then {| check_strength := Weak; check_message := ‹"Password is too predictable"› |}
  else if entropy_below password 60
  then {| check_strength := Fair; check_message := ‹"Password could be stronger"› |}
  else {| check_strength := Strong; check_message := ‹"Password is strong"› |}.

(** The number of the four classes (upper, lower, digit, special)
    present. *)
Definition class_count (password : jstr) : nat :=
  Nat.b2n (hasUpper password) + Nat.b2n (hasLower password)
  + Nat.b2n (hasDigit password) + Nat.b2n (hasSpecial password).

(** ** Lemmas *)

Lemma metRequirements_count p :
  metRequirements (requirements_of p) = Nat.b2n (8 <=? length p) + class_count p.
Proof.
  unfold metRequirements, requirements_of, class_count. cbn [req_length req_hasUpper req_hasLower req_hasNumber req_hasSpecial].
  destruct (8 <=? length p), (hasUpper p), (hasLower p), (hasDigit p), (hasSpecial p);
    reflexivity.
Qed.

Lemma class_count_le p : class_count p ≤ 4.
Proof. unfold class_count. destruct (hasUpper p), (hasLower p), (hasDigit p), (hasSpecial p); simpl; lia. Qed.

Lemma indicatorScore_count p : indicatorScore p = length_points p + class_count p.
Proof. unfold indicatorScore, class_count. lia. Qed.

(** Every unit is in one of the four classes of [getCharsetSize]. *)
Lemma charset_class_cover c :
  is_lower c || is_upper c || is_digit c || is_non_alnum c = true.
Proof. unfold is_non_alnum. by destruct (is_lower c), (is_upper c), (is_digit c). Qed.

Lemma getCharsetSize_zero p : getCharsetSize p = 0 ↔ p = [].
Proof.
  split; [|by intros ->]. destruct p as [|c p]; [done|]. intros H.
  pose proof (charset_class_cover c) as Hc. unfold getCharsetSize, regex_test in H. simpl in H.
  destruct (is_lower c), (is_upper c), (is_digit c), (is_non_alnum c); simpl in *; lia.
Qed.

Lemma entropy_below_mono p q bits :
  getCharsetSize p = getCharsetSize q → length p ≤ length q →
  entropy_below q bits = true → entropy_below p bits = true.
Proof.
  unfold entropy_below. intros Hc Hl. rewrite !Z.ltb_lt, Hc. intros Hq.
  destruct (decide (getCharsetSize q = 0)) as [H0|H0].
  - apply getCharsetSize_zero in H0 as ->. simpl in Hl.
    destruct p; [done|simpl in Hl; lia].
  - eapply Z.le_lt_trans; [|apply Hq]. apply Z.pow_le_mono_r; lia.
Qed.

(** A password of lowercase letters only has one class and a charset of
    26. *)
Lemma all_lower_classes p :
  Forall (λ c, is_lower c = true) p → p ≠ [] →
  hasUpper p = false ∧ hasLower p = true ∧ hasDigit p = false ∧ hasSpecial p = false ∧
  getCharsetSize p = 26.
Proof.
  intros Hall Hne. rewrite Forall_forall in Hall.
  assert (Hu : hasUpper p = false).
  { apply regex_test_false. intros c Hc. specialize (Hall c Hc). destruct (is_upper c) eqn:E; [|done].
    by rewrite (upper_not_lower c E) in Hall. }
  assert (Hd : hasDigit p = false).
  { apply regex_test_false. intros c Hc. specialize (Hall c Hc). destruct (is_digit c) eqn:E; [|done].
    by rewrite (proj2 (digit_not_letter c E)) in Hall. }
  assert (Hl : hasLower p = true).
  { destruct p as [|c p]; [done|]. apply regex_test_true. exists c. split; [left|by apply Hall; left]. }
  assert (Hn : regex_test is_non_alnum p = false).
  { apply regex_test_false. intros c Hc. unfold is_non_alnum. by rewrite Hall. }
  split_and!; try done.
  - apply regex_test_false. intros c Hc. by apply lower_not_special, Hall.
  - unfold getCharsetSize. fold hasLower hasUpper hasDigit. by rewrite Hl, Hu, Hd, Hn.
Qed.

(** Thirteen or more units from a charset of 26 carry at least 60 bits. *)
Lemma lower_entropy_not_below p bits :
  getCharsetSize p = 26 → 13 ≤ length p → bits ≤ 60 → entropy_below p bits = false.
Proof.
  intros Hc Hl Hb. unfold entropy_below. rewrite Hc. apply Z.ltb_ge.
  transitivity (2 ^ 60)%Z; [apply Z.pow_le_mono_r; lia|].
  transitivity (26 ^ 13)%Z; [by apply Z.leb_le|apply Z.pow_le_mono_r; lia].
Qed.

(** ** Properties *)

(** C21: [validatePassword] accepts exactly the passwords of at least 8
    units with at least two of the four classes: the length requirement,
    counted among the five, makes "3 of 5" mean "2 of 4" here. *)
Theorem validatePassword_isValid_iff (p : jstr) :
  isValid (validatePassword p) = true ↔ 8 ≤ length p ∧ 2 ≤ class_count p.
Proof.
  unfold validatePassword. cbn [isValid]. rewrite metRequirements_count.
  rewrite andb_true_iff, !Nat.leb_le.
  destruct (Nat.leb_spec 8 (length p)); simpl; lia.
Qed.

(** A password [validatePassword] rates fair or strong is valid. *)
Theorem validatePassword_rated_valid (p : jstr) :
  strength (validatePassword p) ≠ Weak → isValid (validatePassword p) = true.
Proof.
  intros Hw. apply validatePassword_isValid_iff.
  revert Hw. unfold validatePassword, getPasswordStrength. cbn [strength].
  rewrite metRequirements_count.
  destruct (Nat.leb_spec 8 (length p)); simpl; repeat case_decide; intros; try done; lia.
Qed.

Lemma validatePassword_rated_valid_witness :
  strength (validatePassword ‹"Tr0ub4dor&3"›) ≠ Weak ∧ isValid (validatePassword ‹"Tr0ub4dor&3"›) = true.
Proof. split; [discriminate|]. apply validatePassword_rated_valid. discriminate. Defined.

(** The spec's example "Tr0ub4dor&3": all five requirements hold,
    so it is valid with score 5, but at 11 units it is only fair. *)
Example validatePassword_Tr0ub4dor :
  isValid (validatePassword ‹"Tr0ub4dor&3"›) = true ∧
  score (validatePassword ‹"Tr0ub4dor&3"›) = 5 ∧
  strength (validatePassword ‹"Tr0ub4dor&3"›) = Fair.
Proof. repeat split; reflexivity. Qed.

(** C31: the meter shows "strong" exactly for passwords of at least 12
    units with all four classes. *)
Theorem indicatorTier_strong_iff (p : jstr) :
  indicatorTier p = Strong ↔
  12 ≤ length p ∧ hasUpper p = true ∧ hasLower p = true ∧ hasDigit p = true ∧ hasSpecial p = true.
Proof.
  unfold indicatorTier. rewrite indicatorScore_count. unfold length_points, class_count.
  destruct (hasUpper p), (hasLower p), (hasDigit p), (hasSpecial p);
    repeat case_decide; simpl in *; intuition (try discriminate; lia).
Qed.

(** The charset size is one of the sums of 26, 26, 10 and 32; it is
    at most 94 and it is 0 only for the empty password, so
    [Math.log2(Math.pow(0, n))] is only ever taken at n = 0. *)
Theorem getCharsetSize_bounds (p : jstr) :
  getCharsetSize p ≤ 94 ∧ (getCharsetSize p = 0 ↔ p = []).
Proof.
  split; [|apply getCharsetSize_zero].
  unfold getCharsetSize. repeat case_match; lia.
Qed.

(** C32: the entropy tier is monotone in the length: of two passwords
    with the same charset size the longer one is rated at least as
    strong. *)
Theorem checkPasswordStrength_mono (p q : jstr) :
  getCharsetSize p = getCharsetSize q → length p ≤ length q →
  tier_le (check_strength (checkPasswordStrength p)) (check_strength (checkPasswordStrength q)).
Proof.
  intros Hc Hl. unfold checkPasswordStrength, tier_le.
  destruct (entropy_below q 40) eqn:Hq40.
  { by rewrite (entropy_below_mono p q 40 Hc Hl Hq40). }
  destruct (entropy_below q 60) eqn:Hq60.
  { rewrite (entropy_below_mono p q 60 Hc Hl Hq60). by destruct (entropy_below p 40); simpl; lia. }
  destruct (entropy_below p 40), (entropy_below p 60); simpl; lia.
Qed.

Lemma checkPasswordStrength_mono_witness :
  getCharsetSize ‹"abc"› = getCharsetSize ‹"abcdefghijklm"› ∧ 3 ≤ 13 ∧
  tier_le (check_strength (checkPasswordStrength ‹"abc"›))
          (check_strength (checkPasswordStrength ‹"abcdefghijklm"›)).
Proof.
  split; [reflexivity|]. split; [lia|].
  apply checkPasswordStrength_mono; [reflexivity|simpl; lia].
Defined.

(** The spec's example: "abc" has charset 26 and 3 * log2 26 ~ 14.1
    bits, below 40: weak. *)
Example checkPasswordStrength_abc :
  getCharsetSize ‹"abc"› = 26 ∧ check_strength (checkPasswordStrength ‹"abc"›) = Weak.
Proof. split; reflexivity. Qed.

(** C37: the policies disagree: every password of at least thirteen
    lowercase letters is "weak" on the signup meter (score 2 + 1) and for
    [validatePassword] (invalid: two requirements met), but "strong" for
    the entropy check (at least 13 * log2 26 ~ 61.1 bits, over 60). *)
Theorem strength_policies_disagree (p : jstr) :
  Forall (λ c, is_lower c = true) p → 13 ≤ length p →
  indicatorTier p = Weak ∧
  isValid (validatePassword p) = false ∧ strength (validatePassword p) = Weak ∧
  check_strength (checkPasswordStrength p) = Strong.
Proof.
  intros Hall Hlen.
  destruct (all_lower_classes p) as (Hu & Hl & Hd & Hs & Hc); [done|by destruct p; simpl in *; [lia|]|].
  assert (Hpts : length_points p = 2) by (unfold length_points; case_decide; [done|lia]).
  assert (Hcc : class_count p = 1) by (unfold class_count; by rewrite Hu, Hl, Hd, Hs).
  assert (Hmet : metRequirements (requirements_of p) = 2)
    by (rewrite metRequirements_count, Hcc; by replace (8 <=? length p) with true by (symmetry; apply Nat.leb_le; lia)).
  split_and!.
  - unfold indicatorTier. rewrite indicatorScore_count, Hpts, Hcc. done.
  - unfold validatePassword. cbn [isValid]. rewrite Hmet. by rewrite andb_false_r.
  - unfold validatePassword, getPasswordStrength. cbn [strength]. rewrite Hmet.
    by rewrite !decide_False by lia.
  - unfold checkPasswordStrength. by rewrite !lower_entropy_not_below by lia.
Qed.

Lemma strength_policies_disagree_witness :
  Forall (λ c, is_lower c = true) ‹"abcdefghijklm"› ∧ 13 ≤ length ‹"abcdefghijklm"› ∧
  check_strength (checkPasswordStrength ‹"abcdefghijklm"›) = Strong.
Proof.
  assert (H : Forall (λ c, is_lower c = true) ‹"abcdefghijklm"›) by (repeat constructor).
  split; [exact H|]. split; [simpl; lia|].
  apply (strength_policies_disagree ‹"abcdefghijklm"› H). simpl; lia.
Defined.
