(* ===== verification/Entropy.v ===== *)
(** * Entropy: [AuthUtils.calculateEntropy] over the reals

    [calculateEntropy] (auth.js 68-71) is
    [Math.log2(Math.pow(charsetSize, password.length))].  Here it is
    computed on real numbers, [log2 x = ln x / ln 2], without the
    rounding of doubles.  [Strength.checkPasswordStrength] compares the
    entropy with 40 and 60 bits through [Strength.entropy_below], an
    integer comparison [size^len < 2^bits]; the theorem of this file
    shows that this comparison is exactly the comparison of the real
    entropy, so the integer model of the tiers is the code's formula. *)

From Stdlib Require Import Ascii String ZArith Reals Lra.
From stdpp Require Import base list.
From S2P Require Import Prelude Strength.

Local Open Scope R_scope.

(** [Math.log2(x)] on the reals. *)
Definition log2 (x : R) : R := ln x / ln 2.

Definition calculateEntropy (password : jstr) : R :=
  log2 (INR (getCharsetSize password) ^ length password).

(** ** Lemmas *)

Lemma ln_2_pos : 0 < ln 2.
Proof. pose proof ln_lt_2. lra. Qed.

Lemma Rdiv_lt_iff (a b c : R) : 0 < c → a / c < b ↔ a < b * c.
Proof.
  intros Hc. split; intros H.
  - replace a with (a / c * c) by (field; lra). by apply Rmult_lt_compat_r.
  - apply (Rmult_lt_reg_r c); [done|]. replace (a / c * c) with a by (field; lra). done.
Qed.

(** The power inside [Math.log2] is positive: the charset size is 0
    only for the empty password, and [0^0] is 1. *)
Lemma charset_pow_pos (password : jstr) : 0 < INR (getCharsetSize password) ^ length password.
Proof.
  destruct (decide (getCharsetSize password = 0%nat)) as [H0|H0].
  - apply getCharsetSize_zero in H0 as ->. simpl. lra.
  - apply pow_lt. apply lt_0_INR. lia.
Qed.

(** The integer power of [entropy_below], read in the reals. *)
Lemma charset_pow_IZR (password : jstr) :
  INR (getCharsetSize password) ^ length password =
  IZR (Z.of_nat (getCharsetSize password) ^ Z.of_nat (length password)).
Proof. by rewrite INR_IZR_INZ, pow_IZR. Qed.

Lemma two_pow_IZR (bits : nat) : 2 ^ bits = IZR (2 ^ Z.of_nat bits).
Proof. by rewrite <- pow_IZR. Qed.

(** The integer test [entropy_below] of the strength check is exactly
    the comparison of the real entropy [log2(charsetSize^length)] with
    the bound, for every password and every bound: the tiers of
    [Strength.checkPasswordStrength] are those of the code's formula. *)
Lemma entropy_below_iff (password : jstr) (bits : nat) :
  entropy_below password bits = true ↔ calculateEntropy password < INR bits.
Proof.
  unfold entropy_below, calculateEntropy, log2.
  rewrite Z.ltb_lt, Rdiv_lt_iff by apply ln_2_pos.
  rewrite <- ln_pow by lra. pose proof (charset_pow_pos password) as Hpos.
  split; intros H.
  - apply ln_increasing; [done|]. rewrite charset_pow_IZR, two_pow_IZR. by apply IZR_lt.
  - apply ln_lt_inv in H; [|done|apply pow_lt; lra].
    apply lt_IZR. by rewrite <- charset_pow_IZR, <- two_pow_IZR.
Qed.
