(* ===== verification/Signup.v ===== *)
(** * Signup: password generation of src/signup.js

    The page state the script keeps in globals ([currentPassword],
    [userAnswers]) and writes to the DOM (the generated password, the
    enabled controls, the strength meter, the alert) is the record
    [SignupPage].  [validateAnswers] (signup.js 77-89) reads the two
    answer inputs, [derive_signup] is the body of [generatePassword]
    that builds the password (signup.js 100-128), and [generatePassword]
    (signup.js 91-142) composes them with the page updates;
    [copyPassword] (signup.js 232-241) copies the password.  Random
    draws come from [Math.random] ([Random.mathRandomInt]). *)

From Stdlib Require Import Ascii String ZArith.
From stdpp Require Import base list sets.
From S2P Require Import Prelude Random Transform Complexity Strength.

Local Open Scope char_scope.

(** [{ answer, type }] of [userAnswers.q1] / [userAnswers.q2]. *)
Record UserAnswer := { answer : jstr; type : jstr }.

(** The form fields [generatePassword] reads: the selected questions,
    the answer inputs ([None] while the input does not exist yet), and
    the extra characters. *)
Record SignupForm := {
  form_q1 : jstr; form_answer1 : option jstr;
  form_q2 : jstr; form_answer2 : option jstr;
  form_extraChars : jstr }.

Inductive AlertType := AlertSuccess | AlertError.

Record Alert := { alert_message : jstr; alert_type : AlertType }.

Record SignupPage := {
  currentPassword : jstr;
  userAnswers : option (UserAnswer * UserAnswer);
  shownPassword : jstr;
  controlsEnabled : bool;
  meter : option Indicator;
  alert : option Alert }.

Definition set_userAnswers (ua : UserAnswer * UserAnswer) (pg : SignupPage) : SignupPage :=
  {| currentPassword := currentPassword pg; userAnswers := Some ua;
     shownPassword := shownPassword pg; controlsEnabled := controlsEnabled pg;
     meter := meter pg; alert := alert pg |}.

(** [showAlert(message, type)]: the alert shown (its timer is not
    modelled). *)
Definition showAlert (message : jstr) (t : AlertType) (pg : SignupPage) : SignupPage :=
  {| currentPassword := currentPassword pg; userAnswers := userAnswers pg;
     shownPassword := shownPassword pg; controlsEnabled := controlsEnabled pg;
     meter := meter pg; alert := Some {| alert_message := message; alert_type := t |} |}.

(** [validateAnswers()]: both trimmed answers must be non-empty
    (a missing input reads [undefined]); then [userAnswers] is set. *)
Definition validateAnswers (form : SignupForm) (pg : SignupPage) : bool * SignupPage :=
  match trim <$> form_answer1 form, trim <$> form_answer2 form with
  | Some a1, Some a2 =>
      if decide (a1 ≠ [] ∧ a2 ≠ []) then
        (true, set_userAnswers ({| answer := a1; type := form_q1 form |},
                                {| answer := a2; type := form_q2 form |}) pg)
      else (false, pg)
  | _, _ => (false, pg)
  end.

(** [year.substring(year.length - 2)] of [new Date().getFullYear()]. *)
Definition year_suffix (year : nat) : jstr :=
  let y := number_to_string year in substring_from y (Z.of_nat (length y) - 2).

(** The part of the password built before the padding loop. *)
Definition signup_base (u1 u2 : UserAnswer) (sep : jstr) (year : nat) (extraChars : jstr) : jstr :=
  let password := transformAnswer (answer u1) (type u1) in
  let password := password ++ sep in
  let password := password ++ transformAnswer (answer u2) (type u2) in
  let password := password ++ year_suffix year in
  if decide (extraChars ≠ []) then password ++ substring extraChars 0 3 else password.

(** Signup.js 100-128: the separator draw, the padding to 12 units and the
    back-fill. *)
Definition derive_signup (u1 u2 : UserAnswer) (year : nat) (extraChars : jstr) : Rnd jstr :=
  sep ← randomSymbol;
  password ← pad_loop (mathRandomInt 10) 12 12 (signup_base u1 u2 sep year extraChars);
  ensureComplexity password.

Definition generatePassword (year : nat) (form : SignupForm) (pg : SignupPage) : Rnd SignupPage :=
  match validateAnswers form pg with
  | (false, pg) => mret (showAlert ‹"Please answer both security questions"› AlertError pg)
  | (true, pg) =>
      match userAnswers pg with
      | None => mret pg
      | Some (u1, u2) =>
          password ← derive_signup u1 u2 year (form_extraChars form);
          let pg := {| currentPassword := password; userAnswers := userAnswers pg;
                       shownPassword := password; controlsEnabled := true;
                       meter := Some (updateStrengthIndicator password);
                       alert := alert pg |} in
          mret (showAlert ‹"Password generated successfully! Please confirm it below."›
                  AlertSuccess pg)
      end
  end.

(** [copyPassword()]: nothing when [currentPassword] is empty; otherwise
    [navigator.clipboard.writeText] is called with it and, once the
    promise settles, the success or the error alert is shown
    ([clipboard_ok] is whether the write succeeds; the focus move is not
    modelled).  The first component is the text written. *)
Definition copyPassword (clipboard_ok : bool) (pg : SignupPage) : option jstr * SignupPage :=
  if decide (currentPassword pg = []) then (None, pg)
  else if clipboard_ok then
    (Some (currentPassword pg), showAlert ‹"Password copied to clipboard!"› AlertSuccess pg)
  else (Some (currentPassword pg), showAlert ‹"Failed to copy password"› AlertError pg).

(** A string with no letter. *)
Definition no_letter (l : jstr) : Prop := hasUpper l = false ∧ hasLower l = false.

(** ** Lemmas *)

Lemma substring_from_last2 (y : jstr) :
  substring_from y (Z.of_nat (length y) - 2) = drop (length y - 2) y.
Proof.
  unfold substring_from, substring, clamp.
  replace (Z.to_nat (Z.max 0 (Z.min (Z.of_nat (length y) - 2) (Z.of_nat (length y)))))
    with (length y - 2) by lia.
  replace (Z.to_nat (Z.max 0 (Z.min (Z.of_nat (length y)) (Z.of_nat (length y)))))
    with (length y) by lia.
  rewrite Nat.min_l, Nat.max_r by lia. by rewrite firstn_all.
Qed.

Lemma year_suffix_digits year :
  year_suffix year ≠ [] ∧ Forall (λ c, is_digit c = true) (year_suffix year).
Proof.
  unfold year_suffix. rewrite substring_from_last2.
  destruct (number_to_string_digits year) as [Hne Hd]. split.
  - intros Hnil. apply (f_equal length) in Hnil. rewrite length_drop in Hnil.
    destruct (number_to_string year); simpl in *; [done|lia].
  - by apply Forall_drop.
Qed.

Lemma has_class_of_elem p c (s : jstr) : c ∈ s → p c = true → regex_test p s = true.
Proof. intros. apply regex_test_true. eauto. Qed.

Lemma signup_base_classes u1 u2 c year extra :
  is_special c = true →
  hasDigit (signup_base u1 u2 [c] year extra) = true ∧
  hasSpecial (signup_base u1 u2 [c] year extra) = true.
Proof.
  intros Hc. destruct (year_suffix_digits year) as [Hne Hd].
  destruct (year_suffix year) as [|d ys] eqn:Ey; [done|]. inversion Hd as [|? ? Hd0 _]; subst.
  unfold signup_base. rewrite Ey.
  split; case_decide; unfold_classes; eapply has_class_of_elem; try eassumption; set_solver.
Qed.

Lemma derive_signup_run u1 u2 year extra s :
  derive_signup u1 u2 year extra s =
  let sep := randomSymbol s in
  let pad := pad_loop (mathRandomInt 10) 12 12 (signup_base u1 u2 sep.1 year extra) sep.2 in
  ensureComplexity pad.1 pad.2.
Proof. unfold derive_signup. by rewrite !rnd_bind_run. Qed.

(** The padded password: at least 12 units, with a digit and a special
    character. *)
Lemma signup_padded u1 u2 year extra s :
  let sep := randomSymbol s in
  let r := (pad_loop (mathRandomInt 10) 12 12 (signup_base u1 u2 sep.1 year extra) sep.2).1 in
  12 ≤ length r ∧ hasDigit r = true ∧ hasSpecial r = true.
Proof.
  destruct (randomSymbol_spec s) as (c & Hsep & Hc & _). cbv zeta. rewrite Hsep.
  destruct (signup_base_classes u1 u2 c year extra Hc) as [Hd Hs].
  destruct (pad_loop_spec mathRandomInt 10 ltac:(lia) 12 12
              (signup_base u1 u2 [c] year extra) (randomSymbol s).2 ltac:(lia))
    as [Hlen (pad & Hr & _)].
  split; [lia|]. rewrite Hr. unfold hasDigit, hasSpecial in *.
  split; by apply has_class_app_l.
Qed.

(** Every signup password: at least 12 units, with a lowercase letter,
    a digit and a special character. *)
Lemma signup_output_props u1 u2 year extra s :
  let r := (derive_signup u1 u2 year extra s).1 in
  12 ≤ length r ∧ hasLower r = true ∧ hasDigit r = true ∧ hasSpecial r = true.
Proof.
  rewrite derive_signup_run. cbv zeta.
  set (pad := pad_loop _ _ _ _ _). destruct (signup_padded u1 u2 year extra s) as [Hlen _].
  fold pad in Hlen. pose proof (ensureComplexity_length pad.1 pad.2) as Hl.
  pose proof (ensureComplexity_three_classes pad.1 pad.2) as Hc. cbv zeta in *.
  split; [lia|exact Hc].
Qed.

(** Case analysis on the separator drawn. *)
Lemma randomSymbol_cases (P : jstr → Prop) s :
  P ‹"@"› → P ‹"#"› → P ‹"$"› → P ‹"!"› → P (randomSymbol s).1.
Proof.
  intros H1 H2 H3 H4. pose proof (randomSymbol_in s) as Hin.
  repeat (apply elem_of_cons in Hin as [->|Hin]; [done|]). by apply not_elem_of_nil in Hin.
Qed.

Lemma no_letter_app l1 l2 : no_letter l1 → no_letter l2 → no_letter (l1 ++ l2).
Proof. intros [H1 H2] [H3 H4]. split; unfold hasUpper, hasLower in *; by rewrite regex_test_app, ?H1, ?H2, ?H3, ?H4. Qed.

Lemma no_letter_single c : is_upper c = false → is_lower c = false → no_letter [c].
Proof. intros Hu Hl. split; unfold hasUpper, hasLower; simpl; by rewrite ?Hu, ?Hl. Qed.

Lemma no_letter_digits l : Forall (λ c, is_digit c = true) l → no_letter l.
Proof.
  intros Hd. split; apply regex_test_false; intros c Hc; eapply Forall_forall in Hd; try exact Hc;
    by apply digit_not_letter in Hd as [? ?].
Qed.

(** The base with an extra of at most three units, whose last unit is [c]. *)
Lemma signup_base_last u1 u2 sym year e c :
  length e ≤ 2 →
  signup_base u1 u2 [sym] year (e ++ [c]) =
  (transformAnswer (answer u1) (type u1) ++ [sym] ++ transformAnswer (answer u2) (type u2)
     ++ year_suffix year ++ e) ++ [c].
Proof.
  intros He. unfold signup_base. rewrite decide_True by (intros ?%app_eq_nil; naive_solver).
  rewrite substring_prefix by lia. rewrite take_ge by (rewrite length_app; simpl; lia).
  by rewrite <- !app_assoc.
Qed.

(** ** Properties *)

(** C1: every password the signup flow derives passes
    [AuthUtils.validatePassword] and is rated strong there (length at
    least 12 and at least four of the five requirements), and the signup
    meter shows at least "fair" for it. *)
Theorem derive_signup_validates (u1 u2 : UserAnswer) (year : nat) (extra : jstr) (s : Stream) :
  let r := (derive_signup u1 u2 year extra s).1 in
  isValid (validatePassword r) = true ∧ strength (validatePassword r) = Strong ∧
  tier_le Fair (indicatorTier r).
Proof.
  destruct (signup_output_props u1 u2 year extra s) as (Hlen & Hl & Hd & Hs). cbv zeta in *.
  set (r := (derive_signup u1 u2 year extra s).1) in *.
  assert (Hcount : 3 ≤ class_count r) by (unfold class_count; rewrite Hl, Hd, Hs; simpl; lia).
  pose proof (metRequirements_count r) as Hmet.
  unfold validatePassword, getPasswordStrength, tier_le, indicatorTier. cbn [isValid strength].
  rewrite Hmet, indicatorScore_count. unfold length_points.
  destruct (Nat.leb_spec 8 (length r)); [|lia].
  destruct (Nat.leb_spec 3 (Nat.b2n true + class_count r)); [|simpl in *; lia].
  repeat case_decide; simpl in *; repeat split; lia.
Qed.

(** C3: a signup password can lack an uppercase letter, for every draw:
    when the transformed answers and the extra characters have no
    letter except a final uppercase extra character, and the parts
    already reach 12 units (so nothing is padded after it), the
    back-fill's lowercase overwrite erases that letter.  The login
    page's hint says the password contains uppercase letters. *)
Theorem derive_signup_no_upper (u1 u2 : UserAnswer) (year : nat) (e : jstr) (c : ascii) (s : Stream) :
  let t1 := transformAnswer (answer u1) (type u1) in
  let t2 := transformAnswer (answer u2) (type u2) in
  no_letter t1 → no_letter t2 → no_letter e → length e ≤ 2 → is_upper c = true →
  12 ≤ length t1 + length t2 + length (year_suffix year) + length e + 2 →
  hasUpper (derive_signup u1 u2 year (e ++ [c]) s).1 = false.
Proof.
  cbv zeta. intros H1 H2 He Hle Hc Hlen.
  rewrite derive_signup_run. cbv zeta.
  destruct (randomSymbol_spec s) as (sym & -> & _ & _ & Hsu & Hsl).
  rewrite (signup_base_last u1 u2 sym year e c) by lia.
  set (x := transformAnswer (answer u1) (type u1) ++ [sym] ++ transformAnswer (answer u2) (type u2)
              ++ year_suffix year ++ e).
  assert (Hx : no_letter x).
  { destruct (year_suffix_digits year) as [_ Hy].
    unfold x. repeat apply no_letter_app; try done.
    - by apply no_letter_single.
    - by apply no_letter_digits. }
  assert (Hlx : 12 ≤ length (x ++ [c])).
  { unfold x. rewrite !length_app. simpl. lia. }
  rewrite (pad_loop_done (mathRandomInt 10) 12 11 (x ++ [c])) by lia. cbn [fst snd].
  apply ensureComplexity_last_upper.
  - unfold hasUpper. rewrite regex_test_app. simpl. by rewrite Hc, !orb_true_r.
  - destruct Hx as [_ Hxl]. unfold hasLower in *. rewrite regex_test_app, Hxl. simpl.
    by rewrite (upper_not_lower c Hc).
  - rewrite length_app. simpl. rewrite Nat.add_sub, take_app_length. by destruct Hx.
Qed.

Lemma derive_signup_no_upper_witness :
  no_letter (transformAnswer ‹"111111"› ‹"pet"›) ∧ no_letter (transformAnswer ‹"222222"› ‹"city"›) ∧
  no_letter ‹"11"› ∧ length ‹"11"› ≤ 2 ∧ is_upper "Z" = true ∧
  12 ≤ length (transformAnswer ‹"111111"› ‹"pet"›) + length (transformAnswer ‹"222222"› ‹"city"›)
       + length (year_suffix 2026) + length ‹"11"› + 2 ∧
  hasUpper (derive_signup {| answer := ‹"111111"›; type := ‹"pet"› |}
                          {| answer := ‹"222222"›; type := ‹"city"› |} 2026 (‹"11"› ++ ["Z"]) (λ _, 0%Z)).1 = false.
Proof.
  assert (H1 : no_letter (transformAnswer ‹"111111"› ‹"pet"›)) by (split; vm_compute; reflexivity).
  assert (H2 : no_letter (transformAnswer ‹"222222"› ‹"city"›)) by (split; vm_compute; reflexivity).
  assert (He : no_letter ‹"11"›) by (split; vm_compute; reflexivity).
  assert (Hl : 12 ≤ length (transformAnswer ‹"111111"› ‹"pet"›) + length (transformAnswer ‹"222222"› ‹"city"›)
                    + length (year_suffix 2026) + length ‹"11"› + 2) by (vm_compute; lia).
  split_and!; try assumption; [simpl; lia|reflexivity|].
  exact (derive_signup_no_upper {| answer := ‹"111111"›; type := ‹"pet"› |}
           {| answer := ‹"222222"›; type := ‹"city"› |} 2026 ‹"11"› "Z" (λ _, 0%Z)
           H1 H2 He ltac:(simpl; lia) eq_refl Hl).
Defined.

(** The spec's example: "Rex" (pet) and "Boston" (city) with no extra
    characters in 2026 give "R3x", a drawn symbol, "B0$t0n" and "26":
    exactly 12 units, so no padding and no back-fill. *)
Theorem derive_signup_example (s : Stream) :
  ∃ c, (derive_signup {| answer := ‹"Rex"›; type := ‹"pet"› |}
                      {| answer := ‹"Boston"›; type := ‹"city"› |} 2026 [] s).1
       = ‹"R3x"› ++ [c] ++ ‹"B0$t0n26"› ∧ [c] ∈ DEFAULT_SYMBOLS.
Proof.
  rewrite derive_signup_run. cbv zeta. pose proof (randomSymbol_in s) as Hin.
  revert Hin. generalize (randomSymbol s).2 as s'.
  apply randomSymbol_cases; intros s' Hin; rewrite ensureComplexity_run; eexists;
    (split; [vm_compute; reflexivity|exact Hin]).
Qed.

Lemma validateAnswers_false form pg :
  (validateAnswers form pg).1 = false → (validateAnswers form pg).2 = pg.
Proof. unfold validateAnswers. by repeat case_match. Qed.

Lemma validateAnswers_true form pg :
  (validateAnswers form pg).1 = true → ∃ ua, userAnswers (validateAnswers form pg).2 = Some ua.
Proof. unfold validateAnswers. repeat case_match; simpl; try discriminate. eauto. Qed.

(** A successful [generatePassword] stores the derived password and the
    answers [validateAnswers] recorded. *)
Lemma generatePassword_run year form pg s u1 u2 :
  (validateAnswers form pg).1 = true → userAnswers (validateAnswers form pg).2 = Some (u1, u2) →
  currentPassword (generatePassword year form pg s).1 = (derive_signup u1 u2 year (form_extraChars form) s).1 ∧
  userAnswers (generatePassword year form pg s).1 = Some (u1, u2).
Proof.
  intros Ht Hua. unfold generatePassword. destruct (validateAnswers form pg) as [b pg1] eqn:E.
  simpl in Ht, Hua. subst b. rewrite Hua, rnd_bind_run. done.
Qed.

(** C9: when an answer is missing or blank, [generatePassword] only shows
    the error alert: the password, the controls and the meter are left
    as they were, and nothing is drawn. *)
Theorem generatePassword_invalid (year : nat) (form : SignupForm) (pg : SignupPage) (s : Stream) :
  (validateAnswers form pg).1 = false →
  generatePassword year form pg s =
  (showAlert ‹"Please answer both security questions"› AlertError pg, s).
Proof.
  intros Hf. pose proof (validateAnswers_false form pg Hf) as Hpg.
  unfold generatePassword. destruct (validateAnswers form pg) as [b pg'] eqn:E.
  simpl in Hf, Hpg. by subst.
Qed.

(** The empty page and a form with one answer missing or both given. *)
Definition empty_page : SignupPage :=
  {| currentPassword := []; userAnswers := None; shownPassword := [];
     controlsEnabled := false; meter := None; alert := None |}.

Definition form_of (a1 a2 : option jstr) : SignupForm :=
  {| form_q1 := ‹"pet"›; form_answer1 := a1; form_q2 := ‹"city"›; form_answer2 := a2;
     form_extraChars := [] |}.

Lemma generatePassword_invalid_witness :
  (validateAnswers (form_of (Some ‹"Rex"›) (Some ‹"   "›)) empty_page).1 = false ∧
  generatePassword 2026 (form_of (Some ‹"Rex"›) (Some ‹"   "›)) empty_page (λ _, 0%Z) =
  (showAlert ‹"Please answer both security questions"› AlertError empty_page, λ _, 0%Z).
Proof. split; [reflexivity|]. apply generatePassword_invalid. reflexivity. Defined.

(** C8: when both answers are given, [generatePassword] stores the derived
    password as [currentPassword], shows that same password, enables the
    copy/confirm/signup controls, sets the meter from that password,
    keeps the validated answers and shows the success alert; the password
    has at least 12 units. *)
Theorem generatePassword_success (year : nat) (form : SignupForm) (pg : SignupPage) (s : Stream) :
  (validateAnswers form pg).1 = true →
  let pg' := (generatePassword year form pg s).1 in
  currentPassword pg' = shownPassword pg' ∧ controlsEnabled pg' = true ∧
  meter pg' = Some (updateStrengthIndicator (currentPassword pg')) ∧
  userAnswers pg' = userAnswers (validateAnswers form pg).2 ∧
  12 ≤ length (currentPassword pg') ∧
  alert pg' = Some {| alert_message := ‹"Password generated successfully! Please confirm it below."›;
                      alert_type := AlertSuccess |}.
Proof.
  intros Ht. destruct (validateAnswers_true form pg Ht) as [[u1 u2] Hua].
  unfold generatePassword. destruct (validateAnswers form pg) as [b pg1] eqn:E.
  simpl in Ht, Hua. subst b. rewrite Hua, rnd_bind_run. cbn.
  destruct (signup_output_props u1 u2 year (form_extraChars form) s) as (Hlen & _).
  repeat split; auto.
Qed.

Lemma generatePassword_success_witness :
  (validateAnswers (form_of (Some ‹"Rex"›) (Some ‹" Boston "›)) empty_page).1 = true ∧
  12 ≤ length (currentPassword
                 (generatePassword 2026 (form_of (Some ‹"Rex"›) (Some ‹" Boston "›))
                    empty_page (λ _, 0%Z)).1).
Proof.
  split; [reflexivity|].
  apply (generatePassword_success 2026 (form_of (Some ‹"Rex"›) (Some ‹" Boston "›))
           empty_page (λ _, 0%Z)). reflexivity.
Defined.
