(* ===== verification/Questions.v ===== *)
(** * Questions: the question selection of src/signup.js

    The signup page builds its answer inputs as the user picks the
    questions.  [updateQuestionInputs] (signup.js 8-37) runs when the
    first select [#q1] changes: it empties the container when nothing
    is selected, and otherwise writes the first answer input, labelled
    with the chosen question's text, and a second select [#q2] listing
    the other questions ([getRemainingQuestions], signup.js 39-54).
    [addSecondQuestion] (signup.js 56-75) runs when [#q2] changes and
    writes the second answer input.  The answer inputs call
    [validateAnswers] on every keystroke ([oninput]).

    [QuestionPage] is the part of the DOM these handlers write: the
    fields [generatePassword] reads ([Signup.SignupForm]) and the labels
    and option list they interpolate (the constant text of the HTML
    templates is left out).  A [querySelector] that finds no option
    returns [null] and reading its [textContent] throws; a handler's
    result is then [None].  The options of [#q1] are written in
    signup.html, outside src/: they are the Section variable
    [q1_options].

    [qstep] is the step relation of the page under the user's events; the
    theorems show by rule induction that in every reachable page the
    second answer belongs to a question other than the first, and that
    the answers [validateAnswers] records carry two distinct categories
    of [transformAnswer]. *)

From Stdlib Require Import Ascii String ZArith.
From stdpp Require Import base list.
From S2P Require Import Prelude Transform Signup.

Local Open Scope char_scope.

(** [{value, text}] of the question list. *)
Record Question := { q_value : jstr; q_text : jstr }.

(** The [questions] array of [getRemainingQuestions] (signup.js 40-48). *)
Definition questions : list Question := [
  {| q_value := ‹"pet"›; q_text := ‹"What was the name of your first pet?"› |};
  {| q_value := ‹"mother"›; q_text := ‹"What is your mother's maiden name?"› |};
  {| q_value := ‹"city"›; q_text := ‹"In what city were you born?"› |};
  {| q_value := ‹"car"›; q_text := ‹"What was the make and model of your first car?"› |};
  {| q_value := ‹"school"›; q_text := ‹"What high school did you attend?"› |};
  {| q_value := ‹"movie"›; q_text := ‹"What is your favorite movie?"› |};
  {| q_value := ‹"food"›; q_text := ‹"What is your favorite food?"› |}].

(** The double quote, code unit 34. *)
Definition dquote : ascii := ascii_of_nat 34.

(** [`<option value="${q.value}">${q.text}</option>`] *)
Definition option_html (q : Question) : jstr :=
  ‹"<option value="› ++ [dquote] ++ q_value q ++ [dquote] ++ ‹">"› ++ q_text q ++ ‹"</option>"›.

(** [questions.filter(q => q.value !== exclude)] *)
Definition remaining_questions (exclude : jstr) : list Question :=
  filter (λ q, q_value q ≠ exclude) questions.

(** [getRemainingQuestions(exclude)]: the options, joined with [''].  *)
Definition getRemainingQuestions (exclude : jstr) : jstr :=
  join [] (map option_html (remaining_questions exclude)).

(** [document.querySelector(`#q option[value="${v}"]`)]: the first
    option with that value. *)
Definition find_option (opts : list Question) (v : jstr) : option Question :=
  find (λ q, bool_decide (q_value q = v)) opts.

(** ** Reading the options back

    What the browser's HTML parser makes of the options text: a run of
    [<option value="v">t</option>] elements, for values without a double
    quote and texts without [<].  [parse_options] is used to show that
    [#q2] gets exactly the questions of [remaining_questions]. *)
Fixpoint take_until (c : ascii) (s : jstr) : option (jstr * jstr) :=
  match s with
  | [] => None
  | d :: s => if decide (d = c) then Some ([], s) else '(r, rest) ← take_until c s; Some (d :: r, rest)
  end.

Definition strip_prefix (p s : jstr) : option jstr :=
  if decide (take (length p) s = p) then Some (drop (length p) s) else None.

Fixpoint parse_options (fuel : nat) (s : jstr) : option (list Question) :=
  if decide (s = []) then Some []
  else match fuel with
  | O => None
  | S fuel =>
      r ← strip_prefix (‹"<option value="› ++ [dquote]) s;
      '(v, r) ← take_until dquote r;
      r ← strip_prefix ‹">"› r;
      '(t, r) ← take_until "<" r;
      r ← strip_prefix ‹"/option>"› r;
      qs ← parse_options fuel r;
      Some ({| q_value := v; q_text := t |} :: qs)
  end.

Record QuestionPage := {
  qp_form : SignupForm;
  (** the label of [answer1]; [None] while the container is empty *)
  qp_label1 : option jstr;
  (** the options of [#q2] after its placeholder; [None] while [#q2]
      does not exist *)
  qp_q2_options : option (list Question);
  (** the label of [answer2]; [None] while [#secondQuestion] is empty *)
  qp_label2 : option jstr }.

Definition with_form (f : SignupForm) (qp : QuestionPage) : QuestionPage :=
  {| qp_form := f; qp_label1 := qp_label1 qp; qp_q2_options := qp_q2_options qp;
     qp_label2 := qp_label2 qp |}.

Definition set_q1 (v : jstr) (f : SignupForm) : SignupForm :=
  {| form_q1 := v; form_answer1 := form_answer1 f; form_q2 := form_q2 f;
     form_answer2 := form_answer2 f; form_extraChars := form_extraChars f |}.

Definition set_q2 (v : jstr) (f : SignupForm) : SignupForm :=
  {| form_q1 := form_q1 f; form_answer1 := form_answer1 f; form_q2 := v;
     form_answer2 := form_answer2 f; form_extraChars := form_extraChars f |}.

Definition set_answer1 (a : option jstr) (f : SignupForm) : SignupForm :=
  {| form_q1 := form_q1 f; form_answer1 := a; form_q2 := form_q2 f;
     form_answer2 := form_answer2 f; form_extraChars := form_extraChars f |}.

Definition set_answer2 (a : option jstr) (f : SignupForm) : SignupForm :=
  {| form_q1 := form_q1 f; form_answer1 := form_answer1 f; form_q2 := form_q2 f;
     form_answer2 := a; form_extraChars := form_extraChars f |}.

Definition set_extra (e : jstr) (f : SignupForm) : SignupForm :=
  {| form_q1 := form_q1 f; form_answer1 := form_answer1 f; form_q2 := form_q2 f;
     form_answer2 := form_answer2 f; form_extraChars := e |}.

Section Handlers.
(** The options of [#q1], written in signup.html. *)
Variable q1_options : list Question.

(** [updateQuestionInputs()]: [container.innerHTML] replaced, so the
    previous answer inputs, [#q2] and [#secondQuestion] are gone; the new
    inputs start empty and [#q2] at its placeholder [""]. *)
Definition updateQuestionInputs (qp : QuestionPage) : option QuestionPage :=
  let q1 := form_q1 (qp_form qp) in
  if decide (q1 = []) then
    Some {| qp_form := set_answer2 None (set_answer1 None (qp_form qp));
            qp_label1 := None; qp_q2_options := None; qp_label2 := None |}
  else
    match find_option q1_options q1 with
    | None => None
    | Some q =>
        Some {| qp_form := set_answer2 None (set_q2 [] (set_answer1 (Some []) (qp_form qp)));
                qp_label1 := Some (q_text q); qp_q2_options := Some (remaining_questions q1);
                qp_label2 := None |}
    end.

(** [addSecondQuestion()]: the option is looked up among the ones
    [getRemainingQuestions] wrote into [#q2]. *)
Definition addSecondQuestion (qp : QuestionPage) : option QuestionPage :=
  let q2 := form_q2 (qp_form qp) in
  if decide (q2 = []) then
    Some {| qp_form := set_answer2 None (qp_form qp); qp_label1 := qp_label1 qp;
            qp_q2_options := qp_q2_options qp; qp_label2 := None |}
  else
    match find_option (default [] (qp_q2_options qp)) q2 with
    | None => None
    | Some q =>
        Some {| qp_form := set_answer2 (Some []) (qp_form qp); qp_label1 := qp_label1 qp;
                qp_q2_options := qp_q2_options qp; qp_label2 := Some (q_text q) |}
    end.

(** The user's actions: a select takes one of its options' values; text
    is typed into an input that exists. *)
Inductive QEvent :=
| ChooseQ1 (v : jstr)
| ChooseQ2 (v : jstr)
| TypeAnswer1 (s : jstr)
| TypeAnswer2 (s : jstr)
| TypeExtra (s : jstr).

Definition initial_qp : QuestionPage :=
  {| qp_form := {| form_q1 := []; form_answer1 := None; form_q2 := [];
                   form_answer2 := None; form_extraChars := [] |};
     qp_label1 := None; qp_q2_options := None; qp_label2 := None |}.

(** One event on the question part of the page and on the page state of
    [Signup] ([userAnswers], written by [validateAnswers]). *)
Inductive qstep : QuestionPage * SignupPage → QEvent → QuestionPage * SignupPage → Prop :=
| step_q1 qp pg v qp' :
    v ∈ [] :: map q_value q1_options →
    updateQuestionInputs (with_form (set_q1 v (qp_form qp)) qp) = Some qp' →
    qstep (qp, pg) (ChooseQ1 v) (qp', pg)
| step_q2 qp pg v opts qp' :
    qp_q2_options qp = Some opts → v ∈ [] :: map q_value opts →
    addSecondQuestion (with_form (set_q2 v (qp_form qp)) qp) = Some qp' →
    qstep (qp, pg) (ChooseQ2 v) (qp', pg)
| step_answer1 qp pg s a :
    form_answer1 (qp_form qp) = Some a →
    qstep (qp, pg) (TypeAnswer1 s)
      (with_form (set_answer1 (Some s) (qp_form qp)) qp,
       (validateAnswers (set_answer1 (Some s) (qp_form qp)) pg).2)
| step_answer2 qp pg s a :
    form_answer2 (qp_form qp) = Some a →
    qstep (qp, pg) (TypeAnswer2 s)
      (with_form (set_answer2 (Some s) (qp_form qp)) qp,
       (validateAnswers (set_answer2 (Some s) (qp_form qp)) pg).2)
| step_extra qp pg s :
    qstep (qp, pg) (TypeExtra s) (with_form (set_extra s (qp_form qp)) qp, pg).

(** The same events as a function: [None] when the event cannot happen
    (an option the select does not have, an input that does not exist)
    or the handler throws. *)
Definition qexec (e : QEvent) (st : QuestionPage * SignupPage) : option (QuestionPage * SignupPage) :=
  let '(qp, pg) := st in
  match e with
  | ChooseQ1 v =>
      if decide (v ∈ [] :: map q_value q1_options) then
        qp' ← updateQuestionInputs (with_form (set_q1 v (qp_form qp)) qp); Some (qp', pg)
      else None
  | ChooseQ2 v =>
      match qp_q2_options qp with
      | Some opts =>
          if decide (v ∈ [] :: map q_value opts) then
            qp' ← addSecondQuestion (with_form (set_q2 v (qp_form qp)) qp); Some (qp', pg)
          else None
      | None => None
      end
  | TypeAnswer1 s =>
      match form_answer1 (qp_form qp) with
      | Some _ => Some (with_form (set_answer1 (Some s) (qp_form qp)) qp,
                        (validateAnswers (set_answer1 (Some s) (qp_form qp)) pg).2)
      | None => None
      end
  | TypeAnswer2 s =>
      match form_answer2 (qp_form qp) with
      | Some _ => Some (with_form (set_answer2 (Some s) (qp_form qp)) qp,
                        (validateAnswers (set_answer2 (Some s) (qp_form qp)) pg).2)
      | None => None
      end
  | TypeExtra s => Some (with_form (set_extra s (qp_form qp)) qp, pg)
  end.

Fixpoint qrun (es : list QEvent) (st : QuestionPage * SignupPage) : option (QuestionPage * SignupPage) :=
  match es with
  | [] => Some st
  | e :: es => st' ← qexec e st; qrun es st'
  end.

Inductive q_reachable : QuestionPage * SignupPage → Prop :=
| q_init : q_reachable (initial_qp, empty_page)
| q_next st e st' : q_reachable st → qstep st e st' → q_reachable st'.

(** The invariant of the page: [#q2] lists the questions other than the
    first; a second answer input exists only for a question of that
    list; a first answer input only for an option of [#q1]; and the
    recorded answers carry the first and second questions' values. *)
Definition q_inv (st : QuestionPage * SignupPage) : Prop :=
  let '(qp, pg) := st in
  let f := qp_form qp in
  (∀ opts, qp_q2_options qp = Some opts → opts = remaining_questions (form_q1 f)) ∧
  (form_answer2 f ≠ None → form_q2 f ∈ map q_value (remaining_questions (form_q1 f))) ∧
  (form_answer1 f ≠ None → form_q1 f ∈ map q_value q1_options) ∧
  (∀ u1 u2, userAnswers pg = Some (u1, u2) →
     type u1 ∈ map q_value q1_options ∧ type u2 ∈ map q_value (remaining_questions (type u1))).

End Handlers.

(** ** Lemmas *)

(** Reduces the record updates of the page, and nothing else. *)
Ltac qp_simpl := cbn [qp_form qp_label1 qp_q2_options qp_label2 with_form set_q1 set_q2
  set_answer1 set_answer2 set_extra form_q1 form_q2 form_answer1 form_answer2 form_extraChars type].
Tactic Notation "qp_simpl" "in" hyp(H) := cbn [qp_form qp_label1 qp_q2_options qp_label2 with_form
  set_q1 set_q2 set_answer1 set_answer2 set_extra form_q1 form_q2 form_answer1 form_answer2 form_extraChars type] in H.

Lemma find_option_some opts v q :
  find_option opts v = Some q → q ∈ opts ∧ q_value q = v.
Proof.
  unfold find_option. intros H. apply find_some in H as [Hin Hv].
  split; [by apply list_elem_of_In|by apply bool_decide_eq_true in Hv].
Qed.

Lemma value_in_options opts v q : find_option opts v = Some q → v ∈ map q_value opts.
Proof. intros [Hin <-]%find_option_some. by apply list_elem_of_fmap_2. Qed.

(** [validateAnswers] either leaves [userAnswers] alone or records the
    two selected questions, when both answer inputs exist. *)
Lemma validateAnswers_userAnswers f pg :
  userAnswers (validateAnswers f pg).2 = userAnswers pg ∨
  ∃ a1 a2 x1 x2, form_answer1 f = Some x1 ∧ form_answer2 f = Some x2 ∧
    userAnswers (validateAnswers f pg).2 =
    Some ({| answer := a1; type := form_q1 f |}, {| answer := a2; type := form_q2 f |}).
Proof.
  unfold validateAnswers.
  destruct (form_answer1 f) as [x1|], (form_answer2 f) as [x2|]; simpl; auto.
  case_decide; simpl; [|auto]. right. by do 4 eexists.
Qed.

Lemma remaining_values exclude v : v ∈ map q_value (remaining_questions exclude) → v ≠ exclude ∧ v ∈ map q_value questions.
Proof.
  unfold remaining_questions. intros (q & -> & Hq)%list_elem_of_fmap.
  apply list_elem_of_filter in Hq as [Hne Hq]. split; [done|]. by apply list_elem_of_fmap_2.
Qed.

(** Every question value selects its own case of [transformAnswer]. *)
Lemma questions_categories v : v ∈ map q_value questions → is_Some (category_of_value v).
Proof. intros Hv. repeat (apply elem_of_cons in Hv as [->|Hv]; [by eexists|]). by apply not_elem_of_nil in Hv. Qed.

Section Invariant.
Variable q1_options : list Question.

Lemma q_inv_initial : q_inv q1_options (initial_qp, empty_page).
Proof. split_and!; simpl; try done; intros; discriminate. Qed.

Lemma q_inv_step st e st' : q_inv q1_options st → qstep q1_options st e st' → q_inv q1_options st'.
Proof.
  intros Hinv Hstep. destruct Hstep as [qp pg v qp' Hv Hu|qp pg v opts qp' Hopts Hv Ha|qp pg s a Ha1|qp pg s a Ha2|qp pg s];
    destruct Hinv as (Hq2 & Hans2 & Hans1 & Hua).
  - unfold updateQuestionInputs in Hu. qp_simpl in Hu.
    case_decide as Hnil.
    + injection Hu as <-. split_and!; qp_simpl; try done; by intros ?.
    + destruct (find_option q1_options v) as [q|] eqn:Hf; [|discriminate]. injection Hu as <-.
      split_and!; qp_simpl; try done.
      * by intros ? [= <-].
      * intros _. by eapply value_in_options.
  - unfold addSecondQuestion in Ha. qp_simpl in Ha.
    rewrite Hopts in Ha. specialize (Hq2 _ Hopts). case_decide as Hnil.
    + injection Ha as <-. split_and!; qp_simpl; try done. by intros ? [= <-].
    + destruct (find_option _ v) as [q|] eqn:Hf; [|discriminate]. injection Ha as <-.
      split_and!; qp_simpl; try done; [by intros ? [= <-]|]. intros _. subst opts. by eapply value_in_options.
  - split_and!; qp_simpl; try done; [intros _; apply Hans1; by rewrite Ha1|].
    destruct (validateAnswers_userAnswers (set_answer1 (Some s) (qp_form qp)) pg)
      as [->|(a1 & a2 & x1 & x2 & _ & Hx2 & ->)]; [done|].
    intros u1 u2 [= <- <-]. qp_simpl in Hx2.
    split; [apply Hans1; by rewrite Ha1|]. apply Hans2. by rewrite Hx2.
  - split_and!; qp_simpl; try done; [intros _; apply Hans2; by rewrite Ha2|].
    destruct (validateAnswers_userAnswers (set_answer2 (Some s) (qp_form qp)) pg)
      as [->|(a1 & a2 & x1 & x2 & Hx1 & _ & ->)]; [done|].
    intros u1 u2 [= <- <-]. qp_simpl in Hx1.
    split; [apply Hans1; by rewrite Hx1|]. apply Hans2. by rewrite Ha2.
  - done.
Qed.

Lemma qexec_step st e st' : qexec q1_options e st = Some st' → qstep q1_options st e st'.
Proof.
  destruct st as [qp pg]. destruct e as [v|v|s|s|s]; simpl.
  - case_decide; [|done]. destruct (updateQuestionInputs _ _) eqn:E; [|done].
    intros [= <-]. by constructor.
  - destruct (qp_q2_options qp) as [opts|] eqn:Ho; [|done]. case_decide; [|done].
    destruct (addSecondQuestion _) eqn:E; [|done]. intros [= <-]. by econstructor.
  - destruct (form_answer1 _) eqn:E; [|done]. intros [= <-]. by econstructor.
  - destruct (form_answer2 _) eqn:E; [|done]. intros [= <-]. by econstructor.
  - intros [= <-]. constructor.
Qed.

Lemma qrun_reachable es st st' :
  q_reachable q1_options st → qrun q1_options es st = Some st' → q_reachable q1_options st'.
Proof.
  revert st. induction es as [|e es IH]; intros st Hst; simpl; [by intros [= <-]|].
  destruct (qexec q1_options e st) as [st1|] eqn:E; [|done]. simpl.
  apply IH. econstructor; [exact Hst|]. by apply qexec_step.
Qed.

(** The invariant holds in every page reachable from the empty form
    (rule induction on [q_reachable]). *)
Lemma q_inv_reachable (st : QuestionPage * SignupPage) : q_reachable q1_options st → q_inv q1_options st.
Proof.
  induction 1 as [|st e st' _ IH Hstep]; [apply q_inv_initial|].
  by eapply q_inv_step.
Qed.

End Invariant.

(** C13: the answers the signup page records are always for two different
    questions, and each selects its own case of [transformAnswer]
    (given that the options of [#q1] are among the question list). *)
Theorem recorded_answers_categories (q1_options : list Question) (qp : QuestionPage) (pg : SignupPage) (u1 u2 : UserAnswer) :
  (∀ v, v ∈ map q_value q1_options → v ∈ map q_value questions) →
  q_reachable q1_options (qp, pg) → userAnswers pg = Some (u1, u2) →
  is_Some (category_of_value (type u1)) ∧ is_Some (category_of_value (type u2)) ∧ type u1 ≠ type u2.
Proof.
  intros Hopts Hr Hu.
  destruct (q_inv_reachable q1_options _ Hr) as (_ & _ & _ & Hua). destruct (Hua _ _ Hu) as [H1 [Hne H2]%remaining_values].
  split_and!; [by apply questions_categories, Hopts|by apply questions_categories|done].
Qed.

(** The user picks the pet and city questions and types both answers. *)
Definition demo_events : list QEvent :=
  [ChooseQ1 ‹"pet"›; ChooseQ2 ‹"city"›; TypeAnswer1 ‹"Rex"›; TypeAnswer2 ‹" Boston"›].

Definition demo_state : QuestionPage * SignupPage :=
  default (initial_qp, empty_page) (qrun questions demo_events (initial_qp, empty_page)).

Lemma recorded_answers_categories_witness :
  (∀ v, v ∈ map q_value questions → v ∈ map q_value questions) ∧
  q_reachable questions demo_state ∧
  userAnswers demo_state.2 = Some ({| answer := ‹"Rex"›; type := ‹"pet"› |}, {| answer := ‹"Boston"›; type := ‹"city"› |}) ∧
  is_Some (category_of_value ‹"pet"›) ∧ is_Some (category_of_value ‹"city"›) ∧ ‹"pet"› ≠ ‹"city"›.
Proof.
  assert (Hr : q_reachable questions demo_state).
  { apply (qrun_reachable questions demo_events (initial_qp, empty_page)); [constructor|reflexivity]. }
  assert (Hu : userAnswers demo_state.2 =
               Some ({| answer := ‹"Rex"›; type := ‹"pet"› |}, {| answer := ‹"Boston"›; type := ‹"city"› |}))
    by reflexivity.
  split; [done|]. split; [exact Hr|]. split; [exact Hu|].
  exact (recorded_answers_categories questions demo_state.1 demo_state.2 _ _ (λ v H, H) Hr Hu).
Defined.


(** ** The options text of [#q2] *)

Lemma take_until_app c a rest : c ∉ a → take_until c (a ++ c :: rest) = Some (a, rest).
Proof.
  induction a as [|d a IH]; intros Ha; simpl; [by rewrite decide_True|].
  rewrite decide_False by (intros ->; apply Ha; by left).
  rewrite IH by (intros ?; apply Ha; by right). done.
Qed.

Lemma strip_prefix_app p rest : strip_prefix p (p ++ rest) = Some rest.
Proof.
  unfold strip_prefix. rewrite take_app_length, decide_True by done.
  by rewrite drop_app_length.
Qed.

(** An option element followed by more text, regrouped the way
    [parse_options] reads it. *)
Lemma option_html_app q rest :
  option_html q ++ rest =
  (‹"<option value="› ++ [dquote]) ++ q_value q ++ dquote ::
    ‹">"› ++ q_text q ++ "<"%char :: ‹"/option>"› ++ rest.
Proof. unfold option_html. by rewrite <- !app_assoc. Qed.

Lemma parse_options_concat (qs : list Question) :
  Forall (λ q, (dquote ∉ q_value q) ∧ ("<"%char ∉ q_text q)) qs →
  parse_options (length qs) (concat (map option_html qs)) = Some qs.
Proof.
  induction qs as [|q qs IH]; intros Hqs; [done|].
  apply Forall_cons in Hqs as [[Hv Ht] Hqs]. cbn [length map concat].
  rewrite option_html_app. cbn [parse_options].
  rewrite decide_False by (intros [H _]%app_eq_nil; discriminate H).
  rewrite strip_prefix_app. cbn [mbind option_bind]. rewrite take_until_app by done.
  cbn [mbind option_bind]. rewrite (strip_prefix_app ‹">"›). cbn [mbind option_bind].
  rewrite take_until_app by done. cbn [mbind option_bind]. rewrite strip_prefix_app.
  cbn [mbind option_bind]. rewrite IH by done. by destruct q.
Qed.

(** The filter removes exactly the chosen question: the question values
    are pairwise distinct. *)
Lemma remaining_questions_delete (i : nat) (q : Question) :
  questions !! i = Some q → remaining_questions (q_value q) = delete i questions.
Proof.
  intros Hq. do 7 (destruct i as [|i]; [injection Hq as <-; vm_compute; reflexivity|]). discriminate.
Qed.

(** C26: for each question [q] of the list, the options text
    [getRemainingQuestions] writes into [#q2] after [q] was chosen is
    well-formed HTML and reads back as exactly the six other questions,
    in the order of the list, with their values and texts. *)
Theorem getRemainingQuestions_roundtrip (i : nat) (q : Question) :
  questions !! i = Some q →
  parse_options 6 (getRemainingQuestions (q_value q)) = Some (delete i questions).
Proof.
  intros Hq. pose proof (lookup_lt_Some _ _ _ Hq) as Hi.
  assert (Hl : length (delete i questions) = 6) by (rewrite length_delete by done; reflexivity).
  unfold getRemainingQuestions. rewrite (remaining_questions_delete i q Hq), join_nil_concat, <- Hl.
  apply parse_options_concat.
  assert (Hall : Forall (λ q, (dquote ∉ q_value q) ∧ ("<"%char ∉ q_text q)) questions)
    by (apply (bool_decide_unpack _); by vm_compute).
  rewrite Forall_forall in Hall |- *. intros x Hx. apply Hall. by eapply list_elem_of_delete_inv.
Qed.

Lemma getRemainingQuestions_roundtrip_witness :
  questions !! 2 = Some {| q_value := ‹"city"›; q_text := ‹"In what city were you born?"› |} ∧
  parse_options 6 (getRemainingQuestions ‹"city"›) = Some (delete 2 questions).
Proof.
  split; [reflexivity|].
  exact (getRemainingQuestions_roundtrip 2 {| q_value := ‹"city"›; q_text := ‹"In what city were you born?"› |}
           eq_refl).
Defined.
