(* ===== verification/RateLimit.v ===== *)
(** * RateLimit: [AuthUtils.checkRateLimit] of src/auth.js

    The limiter keeps, per identifier, a JSON record [{count,
    firstAttempt}] in localStorage under [rate_limit_<identifier>].
    [RateStore] is that part of localStorage, decoded: a gmap from the
    key to the record (no other writer uses the [rate_limit_] prefix, and
    [JSON.stringify]/[JSON.parse] round-trip such a record of two
    integers).  [Date.now()] is the parameter [now] (milliseconds).

    [checkRateLimit] is one call (auth.js 120-153); [rl_step] is the step
    relation of the store under calls at any identifiers and times, and
    [rl_reachable] its reachable states from the empty store.  The
    theorems show the invariant of the stored counts, the decisions of a
    burst of calls, the reset after the window, that a refusal writes
    nothing, and that the window is fixed (anchored at the first
    attempt), not sliding; that the code refines the spec's contract
    [RateSpec.checkAndRecord] for any interleaving of calls. *)

From Stdlib Require Import Ascii String ZArith.
From stdpp Require Import base list gmap strings.
From S2P Require Import Prelude.

Local Open Scope Z_scope.

(** The stored JSON record. *)
Record RateData := { count : Z; firstAttempt : Z }.

(** The returned object [{ allowed, remaining }]. *)
Record RateDecision := { allowed : bool; remaining : Z }.

Abbreviation RateStore := (gmap jstr RateData).

(** [15 * 60 * 1000] *)
Definition timeWindow : Z := 15 * 60 * 1000.

(** [`rate_limit_${identifier}`] *)
Definition rate_key (identifier : jstr) : jstr := ‹"rate_limit_"› ++ identifier.

Definition checkRateLimit (identifier : jstr) (now : Z) (st : RateStore) : RateDecision * RateStore :=
  let key := rate_key identifier in
  match st !! key with
  | None =>
      ({| allowed := true; remaining := 4 |},
       <[key := {| count := 1; firstAttempt := now |}]> st)
  | Some data =>
      if decide (now - firstAttempt data > timeWindow) then
        ({| allowed := true; remaining := 4 |},
         <[key := {| count := 1; firstAttempt := now |}]> st)
      else if decide (count data >= 5) then
        ({| allowed := false; remaining := 0 |}, st)
      else
        let data := {| count := count data + 1; firstAttempt := firstAttempt data |} in
        ({| allowed := true; remaining := 5 - count data |}, <[key := data]> st)
  end.

(** A sequence of calls for one identifier, at the given times; the
    decisions in order. *)
Fixpoint run_calls (identifier : jstr) (times : list Z) (st : RateStore)
  : list RateDecision * RateStore :=
  match times with
  | [] => ([], st)
  | t :: ts =>
      let '(d, st) := checkRateLimit identifier t st in
      let '(ds, st) := run_calls identifier ts st in
      (d :: ds, st)
  end.

(** ** The store as a state machine *)

Inductive rl_step : RateStore → RateStore → Prop :=
| rl_call identifier now st :
    rl_step st (checkRateLimit identifier now st).2.

Inductive rl_reachable : RateStore → Prop :=
| rl_init : rl_reachable ∅
| rl_next st st' : rl_reachable st → rl_step st st' → rl_reachable st'.

(** The invariant: every stored count is between 1 and 5. *)
Definition counts_ok (st : RateStore) : Prop :=
  ∀ key data, st !! key = Some data → 1 ≤ count data ≤ 5.

(** The decision of the [i]-th call (from 0) of a burst inside one window
    whose stored count was [c] before the burst. *)
Definition burst_decision (c : Z) (i : nat) : RateDecision :=
  if decide (c + Z.of_nat i < 5) then {| allowed := true; remaining := 4 - c - Z.of_nat i |}
  else {| allowed := false; remaining := 0 |}.

(** ** The contract of the spec

    Section 4.4 of the spec states the limiter as a pure function of the
    caller-owned window of one identifier and the time:
    [checkAndRecord(window | absent, now) -> (allowed, remaining,
    newWindow)].  [RateSpec] writes that contract down; the windows of
    all identifiers are a function [Windows].  [abs] reads the windows
    off the store, and [checkRateLimit_refines] below shows that the
    code implements the contract. *)
Module RateSpec.

Record RateWindow := { w_count : Z; windowStart : Z }.

Definition checkAndRecord (window : option RateWindow) (now : Z) : bool * Z * RateWindow :=
  match window with
  | None => (true, 4, {| w_count := 1; windowStart := now |})
  | Some w =>
      if decide (now - windowStart w > timeWindow) then (true, 4, {| w_count := 1; windowStart := now |})
      else if decide (w_count w >= 5) then (false, 0, w)
      else (true, 5 - (w_count w + 1), {| w_count := w_count w + 1; windowStart := windowStart w |})
  end.

Definition Windows := jstr → option RateWindow.

(** One call: the caller passes the identifier's window and stores the
    new one. *)
Definition call (identifier : jstr) (now : Z) (σ : Windows) : RateDecision * Windows :=
  let '(a, r, w) := checkAndRecord (σ identifier) now in
  ({| allowed := a; remaining := r |},
   λ id, if decide (id = identifier) then Some w else σ id).

Fixpoint run (calls : list (jstr * Z)) (σ : Windows) : list RateDecision :=
  match calls with
  | [] => []
  | (id, t) :: calls => (call id t σ).1 :: run calls (call id t σ).2
  end.

End RateSpec.

(** The window the store keeps for an identifier. *)
Definition window_of (data : RateData) : RateSpec.RateWindow :=
  {| RateSpec.w_count := count data; RateSpec.windowStart := firstAttempt data |}.

Definition abs (st : RateStore) : RateSpec.Windows := λ id, window_of <$> st !! rate_key id.

(** Calls at any identifiers and times, in order, on the store. *)
Fixpoint run_trace (calls : list (jstr * Z)) (st : RateStore) : list RateDecision :=
  match calls with
  | [] => []
  | (id, t) :: calls => (checkRateLimit id t st).1 :: run_trace calls (checkRateLimit id t st).2
  end.

(** ** Lemmas *)

Lemma checkRateLimit_fresh identifier now st :
  st !! rate_key identifier = None →
  checkRateLimit identifier now st =
  ({| allowed := true; remaining := 4 |},
   <[rate_key identifier := {| count := 1; firstAttempt := now |}]> st).
Proof. intros H. unfold checkRateLimit. by rewrite H. Qed.

Lemma checkRateLimit_in_window identifier now st data :
  st !! rate_key identifier = Some data → now - firstAttempt data ≤ timeWindow →
  checkRateLimit identifier now st =
  if decide (count data >= 5) then ({| allowed := false; remaining := 0 |}, st)
  else ({| allowed := true; remaining := 5 - (count data + 1) |},
        <[rate_key identifier := {| count := count data + 1; firstAttempt := firstAttempt data |}]> st).
Proof. intros H Hw. unfold checkRateLimit. rewrite H. by rewrite decide_False by lia. Qed.

(** Past the window the record restarts. *)
Lemma checkRateLimit_expired_at identifier now st data :
  st !! rate_key identifier = Some data → now - firstAttempt data > timeWindow →
  checkRateLimit identifier now st =
  ({| allowed := true; remaining := 4 |},
   <[rate_key identifier := {| count := 1; firstAttempt := now |}]> st).
Proof. intros H Hw. unfold checkRateLimit. rewrite H. by rewrite decide_True. Qed.

Lemma burst_decision_shift c i : burst_decision c (S i) = burst_decision (c + 1) i.
Proof. unfold burst_decision. rewrite Nat2Z.inj_succ. repeat case_decide; f_equal; lia. Qed.

Lemma burst_decision_full c i : 5 ≤ c → burst_decision c (S i) = burst_decision c i.
Proof. intros Hc. unfold burst_decision. by rewrite !decide_False by lia. Qed.

Lemma run_calls_cons identifier t ts st :
  run_calls identifier (t :: ts) st =
  ((checkRateLimit identifier t st).1 :: (run_calls identifier ts (checkRateLimit identifier t st).2).1,
   (run_calls identifier ts (checkRateLimit identifier t st).2).2).
Proof. simpl. destruct (checkRateLimit identifier t st), (run_calls identifier ts _). done. Qed.

(** A burst inside the window of a stored record: the closed form. *)
Lemma run_calls_in_window identifier ts st data :
  st !! rate_key identifier = Some data → 1 ≤ count data ≤ 5 →
  Forall (λ t, t - firstAttempt data ≤ timeWindow) ts →
  (run_calls identifier ts st).1 = map (burst_decision (count data)) (seq 0 (length ts)).
Proof.
  revert st data. induction ts as [|t ts IH]; intros st data Hst Hc Hw; [done|].
  inversion Hw as [|? ? Ht Hts]; subst.
  rewrite run_calls_cons, (checkRateLimit_in_window _ _ _ data Hst Ht).
  simpl length. cbn [seq map]. rewrite <- seq_shift, map_map.
  case_decide as Hfull; cbn [fst snd].
  - rewrite (IH st data Hst Hc Hts). f_equal.
    + unfold burst_decision. by rewrite decide_False by lia.
    + apply map_ext. intros i. by rewrite burst_decision_full by lia.
  - rewrite (IH _ {| count := count data + 1; firstAttempt := firstAttempt data |});
      [|by rewrite lookup_insert_eq|simpl; lia|done].
    f_equal.
    + unfold burst_decision. rewrite decide_True by lia. f_equal. lia.
    + apply map_ext. intros i. by rewrite burst_decision_shift.
Qed.

Lemma counts_ok_insert st key data :
  counts_ok st → 1 ≤ count data ≤ 5 → counts_ok (<[key := data]> st).
Proof.
  intros Hok Hd key' data' Hl. destruct (decide (key = key')) as [<-|Hne].
  - rewrite lookup_insert_eq in Hl. by injection Hl as <-.
  - rewrite lookup_insert_ne in Hl by done. eauto.
Qed.

#[export] Hint Resolve counts_ok_insert : jsdb.

Lemma counts_ok_empty : counts_ok ∅.
Proof. intros ?? Hl. by rewrite lookup_empty in Hl. Qed.

Lemma checkRateLimit_counts_ok identifier now st :
  counts_ok st → counts_ok (checkRateLimit identifier now st).2.
Proof.
  intros Hok. unfold checkRateLimit.
  destruct (st !! rate_key identifier) as [data|] eqn:E; simpl;
    [|apply counts_ok_insert; [done|simpl; lia]].
  pose proof (Hok _ _ E) as Hd.
  repeat case_decide; simpl; try done; apply counts_ok_insert; (done || simpl; lia).
Qed.

Lemma rate_key_inj (a b : jstr) : rate_key a = rate_key b → a = b.
Proof. apply app_inv_head. Qed.

(** The spec's call only reads the windows pointwise. *)
Lemma call_ext identifier now (σ σ' : RateSpec.Windows) :
  (∀ id, σ id = σ' id) →
  (RateSpec.call identifier now σ).1 = (RateSpec.call identifier now σ').1 ∧
  ∀ id, (RateSpec.call identifier now σ).2 id = (RateSpec.call identifier now σ').2 id.
Proof.
  intros Heq. unfold RateSpec.call. rewrite Heq.
  destruct (RateSpec.checkAndRecord _ _) as [[a r] w]. split; [done|].
  intros id. cbn [snd]. case_decide; [done|apply Heq].
Qed.

(** One call of the code is one call of the contract on the windows
    read off the store. *)
Lemma checkRateLimit_abs identifier now st :
  (checkRateLimit identifier now st).1 = (RateSpec.call identifier now (abs st)).1 ∧
  ∀ id, abs (checkRateLimit identifier now st).2 id = (RateSpec.call identifier now (abs st)).2 id.
Proof.
  assert (Ha : abs st identifier = window_of <$> st !! rate_key identifier) by done.
  unfold RateSpec.call. rewrite Ha. unfold checkRateLimit.
  destruct (st !! rate_key identifier) as [data|] eqn:E;
    cbn [fmap option_fmap option_map RateSpec.checkAndRecord window_of RateSpec.windowStart RateSpec.w_count];
    [repeat case_decide|]; (split; [done|]); intros id; cbn [snd]; unfold abs; case_decide as Hid; subst;
    rewrite ?lookup_insert_eq, ?E; try done;
    rewrite ?lookup_insert_ne by (intros ?%rate_key_inj; congruence); done.
Qed.

Lemma run_calls_app identifier ts1 ts2 st :
  run_calls identifier (ts1 ++ ts2) st =
  ((run_calls identifier ts1 st).1 ++ (run_calls identifier ts2 (run_calls identifier ts1 st).2).1,
   (run_calls identifier ts2 (run_calls identifier ts1 st).2).2).
Proof.
  revert st. induction ts1 as [|t ts1 IH]; intros st; simpl.
  - by destruct (run_calls identifier ts2 st).
  - destruct (checkRateLimit identifier t st) as [d st1]. rewrite IH.
    by destruct (run_calls identifier ts1 st1) as [ds st2].
Qed.

(** Calls inside the window of a record that stays under the limit are
    all allowed, and the record counts them. *)
Lemma run_calls_window_store identifier ts st data :
  st !! rate_key identifier = Some data → count data + Z.of_nat (length ts) ≤ 5 →
  Forall (λ t, t - firstAttempt data ≤ timeWindow) ts →
  Forall (λ d, allowed d = true) (run_calls identifier ts st).1 ∧
  (run_calls identifier ts st).2 !! rate_key identifier =
  Some {| count := count data + Z.of_nat (length ts); firstAttempt := firstAttempt data |}.
Proof.
  revert st data. induction ts as [|t ts IH]; intros st data Hst Hc Hw.
  - simpl. rewrite Z.add_0_r. split; [constructor|by destruct data].
  - inversion Hw as [|? ? Ht Hts]; subst. simpl length in Hc.
    rewrite run_calls_cons, (checkRateLimit_in_window _ _ _ data Hst Ht), decide_False by lia.
    cbn [fst snd].
    destruct (IH (<[rate_key identifier := {| count := count data + 1; firstAttempt := firstAttempt data |}]> st)
                 {| count := count data + 1; firstAttempt := firstAttempt data |})
      as [Hall Hlook]; [by rewrite lookup_insert_eq|simpl; lia|done|].
    split; [by constructor|]. rewrite Hlook. simpl. do 2 f_equal. lia.
Qed.

(** ** Properties *)

(** C6: every store reachable from the empty localStorage by calls of
    [checkRateLimit] (any identifiers, any times) keeps each count
    between 1 and 5. *)
Theorem rl_reachable_counts_ok (st : RateStore) : rl_reachable st → counts_ok st.
Proof.
  induction 1 as [|st st' _ IH Hstep].
  - apply counts_ok_empty.
  - inversion Hstep; subst. by apply checkRateLimit_counts_ok.
Qed.

Lemma rl_reachable_counts_ok_witness :
  rl_reachable (checkRateLimit ‹"bob"› 0 ∅).2 ∧ counts_ok (checkRateLimit ‹"bob"› 0 ∅).2.
Proof.
  assert (H : rl_reachable (checkRateLimit ‹"bob"› 0 ∅).2) by (eapply rl_next; [apply rl_init|constructor]).
  split; [exact H|]. exact (rl_reachable_counts_ok _ H).
Defined.

(** On a store satisfying the invariant, the returned [remaining] is
    between 0 and 4, and a refusal reports 0 remaining. *)
Theorem checkRateLimit_remaining_bounds (identifier : jstr) (now : Z) (st : RateStore) :
  counts_ok st →
  let d := (checkRateLimit identifier now st).1 in
  0 ≤ remaining d ≤ 4 ∧ (allowed d = false → remaining d = 0).
Proof.
  intros Hok. unfold checkRateLimit.
  destruct (st !! rate_key identifier) as [data|] eqn:E; simpl; [|lia].
  pose proof (Hok _ _ E). repeat case_decide; simpl; lia.
Qed.

Lemma checkRateLimit_remaining_bounds_witness :
  counts_ok (∅ : RateStore) ∧ 0 ≤ remaining (checkRateLimit ‹"bob"› 0 ∅).1 ≤ 4.
Proof.
  split; [apply counts_ok_empty|].
  apply (checkRateLimit_remaining_bounds ‹"bob"› 0 ∅ counts_ok_empty).
Defined.

(** C5: a burst of calls for an identifier with no stored window, all
    within the window of the first ([t - t0 <= 15 min]): the [i]-th call
    (from 0) is allowed with [4 - i] remaining while [i < 5], and every
    later one is refused with 0 remaining. *)
Theorem run_calls_burst (identifier : jstr) (t0 : Z) (ts : list Z) (st : RateStore) :
  st !! rate_key identifier = None →
  Forall (λ t, t - t0 ≤ timeWindow) ts →
  (run_calls identifier (t0 :: ts) st).1 = map (burst_decision 0) (seq 0 (S (length ts))).
Proof.
  intros Hnone Hw. rewrite run_calls_cons, checkRateLimit_fresh by done. simpl.
  rewrite (run_calls_in_window _ _ _ {| count := 1; firstAttempt := t0 |});
    [|by rewrite lookup_insert_eq|simpl; lia|done].
  rewrite <- seq_shift, map_map. f_equal. apply map_ext. intros i.
  by rewrite burst_decision_shift.
Qed.

Lemma run_calls_burst_witness :
  (∅ : RateStore) !! rate_key ‹"bob"› = None ∧
  Forall (λ t, t - 0 ≤ timeWindow) [1; 2; 3; 4; 5] ∧
  (run_calls ‹"bob"› [0; 1; 2; 3; 4; 5] ∅).1 = map (burst_decision 0) (seq 0 6).
Proof.
  split; [reflexivity|]. split; [repeat constructor; unfold timeWindow; lia|].
  apply run_calls_burst; [reflexivity|repeat constructor; unfold timeWindow; lia].
Defined.

(** The spec's scenario: five calls within 15 minutes are allowed
    with 4, 3, 2, 1, 0 remaining, the sixth is refused with 0
    remaining, and a call after the window has passed is allowed again
    with 4 remaining. *)
Example run_calls_spec_scenario :
  (run_calls ‹"alice"› [0; 60000; 120000; 180000; 240000; 300000; 900001] ∅).1 =
  [{| allowed := true; remaining := 4 |}; {| allowed := true; remaining := 3 |};
   {| allowed := true; remaining := 2 |}; {| allowed := true; remaining := 1 |};
   {| allowed := true; remaining := 0 |}; {| allowed := false; remaining := 0 |};
   {| allowed := true; remaining := 4 |}].
Proof. reflexivity. Qed.

(** C24: once more than 15 minutes have passed since the stored first
    attempt, the window is reset: the call is allowed with 4 remaining
    and the record restarts at count 1 from [now]. *)
Theorem checkRateLimit_expired (identifier : jstr) (now : Z) (st : RateStore) (data : RateData) :
  st !! rate_key identifier = Some data → now - firstAttempt data > timeWindow →
  checkRateLimit identifier now st =
  ({| allowed := true; remaining := 4 |},
   <[rate_key identifier := {| count := 1; firstAttempt := now |}]> st).
Proof. apply checkRateLimit_expired_at. Qed.

Lemma checkRateLimit_expired_witness :
  let st := <[rate_key ‹"bob"› := {| count := 5; firstAttempt := 0 |}]> (∅ : RateStore) in
  checkRateLimit ‹"bob"› 900001 st =
  ({| allowed := true; remaining := 4 |},
   <[rate_key ‹"bob"› := {| count := 1; firstAttempt := 900001 |}]> st).
Proof. apply (checkRateLimit_expired _ _ _ {| count := 5; firstAttempt := 0 |}); [reflexivity|unfold timeWindow; simpl; lia]. Defined.

(** A refused call writes nothing: the store is unchanged, so
    refusals do not extend the window. *)
Theorem checkRateLimit_refused_unchanged (identifier : jstr) (now : Z) (st : RateStore) :
  allowed (checkRateLimit identifier now st).1 = false → (checkRateLimit identifier now st).2 = st.
Proof.
  unfold checkRateLimit. destruct (st !! rate_key identifier); [|done].
  by repeat case_decide.
Qed.

Lemma checkRateLimit_refused_unchanged_witness :
  let st := <[rate_key ‹"bob"› := {| count := 5; firstAttempt := 0 |}]> (∅ : RateStore) in
  allowed (checkRateLimit ‹"bob"› 10 st).1 = false ∧ (checkRateLimit ‹"bob"› 10 st).2 = st.
Proof. split; [reflexivity|]. apply checkRateLimit_refused_unchanged. reflexivity. Defined.

(** A call only touches its own identifier's record. *)
Theorem checkRateLimit_other_keys (identifier : jstr) (now : Z) (st : RateStore) (key : jstr) :
  key ≠ rate_key identifier → (checkRateLimit identifier now st).2 !! key = st !! key.
Proof.
  intros Hne. unfold checkRateLimit.
  destruct (st !! rate_key identifier); [repeat case_decide|]; simpl;
    rewrite ?lookup_insert_ne by congruence; done.
Qed.

Lemma checkRateLimit_other_keys_witness :
  rate_key ‹"eve"› ≠ rate_key ‹"bob"› ∧
  (checkRateLimit ‹"bob"› 0 ∅).2 !! rate_key ‹"eve"› = (∅ : RateStore) !! rate_key ‹"eve"›.
Proof. split; [discriminate|]. apply checkRateLimit_other_keys. discriminate. Defined.

(** C28: the window is fixed at the first attempt, not sliding: for any
    identifier with no record and any start [t0], ten calls are all
    allowed although the last nine fall within one millisecond (at
    [t0 + 15 min], still inside the first window since the reset needs
    strictly more, and at [t0 + 15 min + 1 ms], which starts a new one).
    A sliding window would allow at most five of them. *)
Theorem fixed_window_ten_allowed (identifier : jstr) (t0 : Z) (st : RateStore) :
  st !! rate_key identifier = None →
  Forall (λ d, allowed d = true)
    (run_calls identifier (t0 :: replicate 4 (t0 + timeWindow) ++ replicate 5 (t0 + timeWindow + 1)) st).1.
Proof.
  intros Hnone. rewrite app_comm_cons, run_calls_app, run_calls_cons, checkRateLimit_fresh by done.
  cbn [fst snd].
  destruct (run_calls_window_store identifier (replicate 4 (t0 + timeWindow))
              (<[rate_key identifier := {| count := 1; firstAttempt := t0 |}]> st)
              {| count := 1; firstAttempt := t0 |}) as [Hall1 Hst1];
    [by rewrite lookup_insert_eq|simpl; lia|apply Forall_replicate; simpl; lia|].
  apply Forall_app. split; [by constructor|].
  change (replicate 5 (t0 + timeWindow + 1)) with ((t0 + timeWindow + 1) :: replicate 4 (t0 + timeWindow + 1)).
  rewrite run_calls_cons, (checkRateLimit_expired_at _ _ _ _ Hst1) by (simpl; lia). cbn [fst snd].
  set (st2 := (run_calls identifier (replicate 4 (t0 + timeWindow))
                (<[rate_key identifier := {| count := 1; firstAttempt := t0 |}]> st)).2).
  destruct (run_calls_window_store identifier (replicate 4 (t0 + timeWindow + 1))
              (<[rate_key identifier := {| count := 1; firstAttempt := t0 + timeWindow + 1 |}]> st2)
              {| count := 1; firstAttempt := t0 + timeWindow + 1 |}) as [Hall2 _];
    [by rewrite lookup_insert_eq|simpl; lia|apply Forall_replicate; simpl; unfold timeWindow; lia|].
  by constructor.
Qed.

Lemma fixed_window_ten_allowed_witness :
  (∅ : RateStore) !! rate_key ‹"bob"› = None ∧
  Forall (λ d, allowed d = true)
    (run_calls ‹"bob"› (0 :: replicate 4 (0 + timeWindow) ++ replicate 5 (0 + timeWindow + 1)) ∅).1.
Proof. split; [reflexivity|]. apply fixed_window_ten_allowed. reflexivity. Defined.

(** C11: refinement of the spec's contract: any sequence of calls, at any
    identifiers and times and in any interleaving, gets from
    [checkRateLimit] on a store the decisions the spec's
    [checkAndRecord] gives on the windows read off that store. *)
Theorem run_trace_refines (calls : list (jstr * Z)) (st : RateStore) (σ : RateSpec.Windows) :
  (∀ id, abs st id = σ id) → run_trace calls st = RateSpec.run calls σ.
Proof.
  revert st σ. induction calls as [|[id t] calls IH]; intros st σ Hrel; [done|]. simpl.
  destruct (checkRateLimit_abs id t st) as [Hd Hw].
  destruct (call_ext id t (abs st) σ Hrel) as [Hd' Hw'].
  rewrite Hd, Hd'. f_equal. apply IH. intros id'. by rewrite Hw, Hw'.
Qed.

Lemma run_trace_refines_witness :
  (∀ id, abs ∅ id = (λ _, None) id) ∧
  run_trace [(‹"bob"›, 0); (‹"eve"›, 5); (‹"bob"›, 7)] ∅ =
  RateSpec.run [(‹"bob"›, 0); (‹"eve"›, 5); (‹"bob"›, 7)] (λ _, None).
Proof.
  assert (H : ∀ id, abs ∅ id = (λ _ : jstr, @None RateSpec.RateWindow) id)
    by (intros id; unfold abs; by rewrite lookup_empty).
  split; [exact H|]. apply run_trace_refines. exact H.
Defined.

