(* ===== verification/Quiz.v ===== *)
(** * Quiz: [generatePassword] of src/js/script.js

    The quiz page builds a password from at least three checked
    questions.  The input is the list of the values of the checked
    questions' inputs, in document order.  [quiz_step] is the
    [forEach] callback (script.js 12-37) acting on the accumulated
    [answers] and on the alerts shown; its [return] only ends the
    callback, so the loop goes on with the next question.  The draws
    come from [secureRandomNumber] ([Random.secureRandomNumber]).

    [alert()] is modelled as the list of messages shown, in order; the
    output element's text as [quiz_output]. *)

From Stdlib Require Import Ascii String ZArith.
From stdpp Require Import base list.
From S2P Require Import Prelude Random Transform.

Local Open Scope char_scope.

Record QuizResult := { quiz_alerts : list jstr; quiz_output : option jstr }.

(** [/[^a-zA-Z]/g] removes every unit but the ASCII letters. *)
Definition is_ascii_letter (c : ascii) : bool := is_upper c || is_lower c.

Definition msg_unanswered : jstr := ‹"Please answer all selected questions."›.
Definition msg_two_letters : jstr := ‹"Answers must contain at least 2 letters."›.
Definition msg_three : jstr := ‹"Please select at least 3 questions."›.

(** One call of the [forEach] callback on the accumulated
    [(answers, alerts)]. *)
Definition quiz_step (acc : list jstr * list jstr) (input_value : jstr) : list jstr * list jstr :=
  let '(answers, alerts) := acc in
  let value := trim input_value in
  if decide (value = []) then ([], alerts ++ [msg_unanswered])
  else
    let cleaned := filter (λ c, is_ascii_letter c = true) value in
    if decide (length cleaned < 2) then ([], alerts ++ [msg_two_letters])
    else (answers ++ [capitalize cleaned], alerts).

(** [const symbols = "!@#$%&*"] *)
Definition quiz_symbols : jstr := ‹"!@#$%&*"›.

(** [symbols[i]]: the unit at [i], or [undefined] out of range. *)
Definition symbol_at (i : Z) : jstr :=
  match quiz_symbols !! Z.to_nat i with Some c => [c] | None => ‹"undefined"› end.

Definition quizGeneratePassword (input_values : list jstr) : Rnd QuizResult :=
  if decide (length input_values < 3) then
    mret {| quiz_alerts := [msg_three]; quiz_output := None |}
  else
    let '(answers, alerts) := foldl quiz_step ([], []) input_values in
    if decide (length answers < 3) then
      mret {| quiz_alerts := alerts; quiz_output := None |}
    else
      i ← secureRandomNumber (Z.of_nat (length quiz_symbols));
      n ← secureRandomNumber 90;
      let password := join ‹"-"› answers ++ symbol_at i ++ z_to_string (n + 10) in
      password ← pad_loop (secureRandomNumber 9) 14 14 password;
      mret {| quiz_alerts := alerts; quiz_output := Some password |}.

(** What the callback keeps of a valid input: the letters of the trimmed
    value, capitalised. *)
Definition quiz_format (input_value : jstr) : jstr :=
  capitalize (filter (λ c, is_ascii_letter c = true) (trim input_value)).

Definition quiz_valid (input_value : jstr) : Prop :=
  trim input_value ≠ [] ∧ 2 ≤ length (filter (λ c, is_ascii_letter c = true) (trim input_value)).

(** ** Lemmas *)

Lemma quiz_fold_valid (vals : list jstr) (answers alerts : list jstr) :
  Forall quiz_valid vals →
  foldl quiz_step (answers, alerts) vals = (answers ++ map quiz_format vals, alerts).
Proof.
  revert answers. induction vals as [|v vals IH]; intros answers Hv; simpl.
  - by rewrite app_nil_r.
  - inversion Hv as [|? ? [Hne Hlen] Hvs]; subst.
    rewrite decide_False by done. rewrite decide_False by lia.
    rewrite IH by done. by rewrite <- app_assoc.
Qed.

(** The run of the generator once the answers are collected. *)
Lemma quizGeneratePassword_run vals s :
  quizGeneratePassword vals s =
  if decide (length vals < 3) then ({| quiz_alerts := [msg_three]; quiz_output := None |}, s)
  else
    let acc := foldl quiz_step ([], []) vals in
    if decide (length acc.1 < 3) then ({| quiz_alerts := acc.2; quiz_output := None |}, s)
    else
      let i := secureRandomNumber 7 s in
      let n := secureRandomNumber 90 i.2 in
      let p := pad_loop (secureRandomNumber 9) 14 14
                 (join ‹"-"› acc.1 ++ symbol_at i.1 ++ z_to_string (n.1 + 10)) n.2 in
      ({| quiz_alerts := acc.2; quiz_output := Some p.1 |}, p.2).
Proof.
  unfold quizGeneratePassword. case_decide; [done|].
  destruct (foldl quiz_step ([], []) vals) as [answers alerts]. simpl.
  case_decide; [done|]. by rewrite !rnd_bind_run.
Qed.

Lemma quiz_pad_spec b st :
  let r := (pad_loop (secureRandomNumber 9) 14 14 b st).1 in
  14 ≤ length r ∧ b `prefix_of` r.
Proof.
  destruct (pad_loop_spec secureRandomNumber 9 ltac:(lia) 14 14 b st ltac:(lia)) as [Hlen (pad & Hr & _)].
  cbv zeta. rewrite Hr in *. split; [lia|]. by exists pad.
Qed.

(** The padding digits of [secureRandomNumber(9)] are 0 to 8. *)
Lemma pad_loop_no_nine (min fuel : nat) (password : jstr) (s : Stream) :
  ∃ pad, (pad_loop (secureRandomNumber 9) min fuel password s).1 = password ++ pad ∧
         Forall (λ c, is_digit c = true ∧ c ≠ "9") pad.
Proof.
  revert password s. induction fuel as [|fuel IH]; intros password s.
  - exists []. by rewrite app_nil_r.
  - rewrite pad_loop_S. case_decide; [|exists []; by rewrite app_nil_r].
    pose proof (draw_range (draw := secureRandomNumber) 9 s ltac:(lia)) as Hr.
    set (d := (secureRandomNumber 9 s).1) in *.
    assert (Hd : ∃ c, z_to_string d = [c] ∧ is_digit c = true ∧ c ≠ "9").
    { destruct (Z.to_nat d) as [|[|[|[|[|[|[|[|[|n]]]]]]]]] eqn:E; unfold z_to_string; rewrite E;
        try (eexists; split; [reflexivity|]; split; [reflexivity|discriminate]); lia. }
    destruct Hd as (c & -> & Hc). destruct (IH (password ++ [c]) (secureRandomNumber 9 s).2) as (pad & -> & Hpad).
    exists (c :: pad). rewrite <- app_assoc. split; [done|]. by constructor.
Qed.

(** Once the fold has collected at least three answers, the generator
    shows the fold's alerts and outputs a password starting with the
    answers joined by "-". *)
Lemma quiz_output_of_fold vals s answers alerts :
  3 ≤ length vals → foldl quiz_step ([], []) vals = (answers, alerts) → 3 ≤ length answers →
  quiz_alerts (quizGeneratePassword vals s).1 = alerts ∧
  ∃ p, quiz_output (quizGeneratePassword vals s).1 = Some p ∧ join ‹"-"› answers `prefix_of` p.
Proof.
  intros Hl Hf Ha. rewrite quizGeneratePassword_run, decide_False by lia. cbv zeta.
  rewrite Hf. cbn [fst snd]. rewrite decide_False by lia. cbn [fst quiz_output quiz_alerts].
  split; [done|]. eexists; split; [done|].
  etransitivity; [|apply quiz_pad_spec]. by apply prefix_app_r.
Qed.

(** ** Properties *)

(** C7: every password the quiz page outputs has at least 14 units. *)
Theorem quiz_output_length (vals : list jstr) (s : Stream) (p : jstr) :
  quiz_output (quizGeneratePassword vals s).1 = Some p → 14 ≤ length p.
Proof.
  rewrite quizGeneratePassword_run. cbv zeta. repeat case_decide; cbn [fst quiz_output];
    try (intros; discriminate).
  intros Hp. injection Hp as Hp. subst p. apply quiz_pad_spec.
Qed.

Lemma quiz_output_length_witness :
  quiz_output (quizGeneratePassword [‹"ab"›; ‹"cd"›; ‹"ef"›] (λ _, 5%Z)).1 = Some ‹"Ab-Cd-Ef&15555"› ∧
  14 ≤ length ‹"Ab-Cd-Ef&15555"›.
Proof. split; [reflexivity|]. apply (quiz_output_length [‹"ab"›; ‹"cd"›; ‹"ef"›] (λ _, 5%Z)). reflexivity. Defined.



(** C4: a blank answer does not stop the generator: the [return] in the
    [forEach] callback only ends that callback, so after the alert the
    answers checked later are collected again, and when at least three
    valid ones follow, a password is output from them.  For any answers
    before the blank one and any draws. *)
Theorem quiz_continues_after_alert (pre post : list jstr) (v : jstr) (s : Stream) :
  trim v = [] → 3 ≤ length post → Forall quiz_valid post →
  let r := (quizGeneratePassword (pre ++ v :: post) s).1 in
  quiz_alerts r = (foldl quiz_step ([], []) pre).2 ++ [msg_unanswered] ∧
  ∃ p, quiz_output r = Some p ∧ join ‹"-"› (map quiz_format post) `prefix_of` p.
Proof.
  intros Hv Hl Hpost. cbv zeta. apply quiz_output_of_fold; [rewrite length_app; simpl; lia| |by rewrite length_map].
  rewrite foldl_app. destruct (foldl quiz_step ([], []) pre) as [a al]. simpl.
  rewrite decide_True by done. by rewrite quiz_fold_valid.
Qed.

Lemma quiz_continues_after_alert_witness :
  trim ‹" "› = [] ∧ 3 ≤ length [‹"rex"›; ‹"boston"›; ‹"paris"›] ∧ Forall quiz_valid [‹"rex"›; ‹"boston"›; ‹"paris"›] ∧
  quiz_alerts (quizGeneratePassword ([‹"x"›] ++ ‹" "› :: [‹"rex"›; ‹"boston"›; ‹"paris"›]) (λ _, 0%Z)).1
  = [msg_two_letters; msg_unanswered].
Proof.
  assert (Hv : Forall quiz_valid [‹"rex"›; ‹"boston"›; ‹"paris"›])
    by (repeat constructor; unfold quiz_valid; simpl; (discriminate || lia)).
  split; [reflexivity|]. split; [simpl; lia|]. split; [exact Hv|].
  exact (proj1 (quiz_continues_after_alert [‹"x"›] [‹"rex"›; ‹"boston"›; ‹"paris"›] ‹" "› (λ _, 0%Z)
    eq_refl ltac:(simpl; lia) Hv)).
Defined.

(** With fewer than three questions checked, only the alert is shown
    and nothing is drawn. *)
Theorem quiz_too_few (vals : list jstr) (s : Stream) :
  length vals < 3 →
  quizGeneratePassword vals s = ({| quiz_alerts := [msg_three]; quiz_output := None |}, s).
Proof. intros H. rewrite quizGeneratePassword_run. by rewrite decide_True. Qed.

Lemma quiz_too_few_witness :
  length [‹"rex"›; ‹"paris"›] < 3 ∧
  quizGeneratePassword [‹"rex"›; ‹"paris"›] (λ _, 0%Z) =
  ({| quiz_alerts := [msg_three]; quiz_output := None |}, λ _, 0%Z).
Proof. split; [simpl; lia|]. apply quiz_too_few. simpl; lia. Defined.

(** C33: when at least three questions are checked and every answer has
    at least two letters, no alert is shown and the password starts with
    the capitalised letter-only answers joined by "-". *)
Theorem quiz_all_valid (vals : list jstr) (s : Stream) :
  3 ≤ length vals → Forall quiz_valid vals →
  quiz_alerts (quizGeneratePassword vals s).1 = [] ∧
  ∃ p, quiz_output (quizGeneratePassword vals s).1 = Some p ∧
       join ‹"-"› (map quiz_format vals) `prefix_of` p.
Proof.
  intros Hl Hv. apply quiz_output_of_fold; [done|apply quiz_fold_valid, Hv|by rewrite length_map].
Qed.

Lemma quiz_all_valid_witness :
  3 ≤ length [‹"rex"›; ‹" boston "›; ‹"paris"›] ∧ Forall quiz_valid [‹"rex"›; ‹" boston "›; ‹"paris"›] ∧
  quiz_alerts (quizGeneratePassword [‹"rex"›; ‹" boston "›; ‹"paris"›] (λ _, 0%Z)).1 = [].
Proof.
  assert (Hv : Forall quiz_valid [‹"rex"›; ‹" boston "›; ‹"paris"›])
    by (repeat constructor; unfold quiz_valid; simpl; (discriminate || lia)).
  split; [simpl; lia|]. split; [exact Hv|].
  apply (quiz_all_valid _ (λ _, 0%Z)); [simpl; lia|exact Hv].
Defined.

(** C22: every password the quiz page outputs is the answers the
    [forEach] callback kept, joined by "-", then [symbols[i]] for a draw
    [i] in [0, 7), the number [n + 10] for a draw [n] in [0, 90), then
    padding digits from [secureRandomNumber(9)], which are 0 to 8: a
    padding digit is never 9. *)
Theorem quiz_padding_no_nine (vals : list jstr) (s : Stream) (p : jstr) :
  quiz_output (quizGeneratePassword vals s).1 = Some p →
  ∃ i n pad, p = join ‹"-"› (foldl quiz_step ([], []) vals).1 ++ symbol_at i ++ z_to_string (n + 10) ++ pad ∧
    (0 ≤ i < 7)%Z ∧ (0 ≤ n < 90)%Z ∧ Forall (λ c, is_digit c = true ∧ c ≠ "9") pad.
Proof.
  rewrite quizGeneratePassword_run. cbv zeta. repeat case_decide; cbn [fst quiz_output];
    try (intros; discriminate).
  set (i := secureRandomNumber 7 s). set (n := secureRandomNumber 90 i.2).
  destruct (pad_loop_no_nine 14 14 (join ‹"-"› (foldl quiz_step ([], []) vals).1 ++ symbol_at i.1
              ++ z_to_string (n.1 + 10)) n.2) as (pad & Heq & Hpad).
  rewrite Heq. intros Hp. injection Hp as <-.
  pose proof (draw_range (draw := secureRandomNumber) 7 s ltac:(lia)) as Hi.
  pose proof (draw_range (draw := secureRandomNumber) 90 i.2 ltac:(lia)) as Hn.
  exists i.1, n.1, pad. rewrite <- !app_assoc. split_and!; try done; unfold n, i in *; lia.
Qed.

Lemma quiz_padding_no_nine_witness :
  quiz_output (quizGeneratePassword [‹"ab"›; ‹"cd"›; ‹"ef"›] (λ _, 5%Z)).1 = Some ‹"Ab-Cd-Ef&15555"› ∧
  ∃ i n pad, ‹"Ab-Cd-Ef&15555"› = join ‹"-"› (foldl quiz_step ([], []) [‹"ab"›; ‹"cd"›; ‹"ef"›]).1
      ++ symbol_at i ++ z_to_string (n + 10) ++ pad ∧
    (0 ≤ i < 7)%Z ∧ (0 ≤ n < 90)%Z ∧ Forall (λ c, is_digit c = true ∧ c ≠ "9") pad.
Proof.
  split; [reflexivity|].
  apply (quiz_padding_no_nine [‹"ab"›; ‹"cd"›; ‹"ef"›] (λ _, 5%Z)). reflexivity.
Defined.
