(* ===== verification/Accounts.v ===== *)
(** * Accounts: storing the account, logging in, sessions

    The browser storage shared by the pages is [Browser]: localStorage
    and sessionStorage as gmaps from keys to decoded values ([LocalValue],
    [SessionValue]); [JSON.stringify]/[JSON.parse] round-trip the records
    stored, and a stored ISO date is the time it prints (milliseconds).
    A stored plain text is parsed by the runtime's [JSON.parse]: the
    record [Runtime] holds it, as a function to [json] values, with the
    instant [expiry.setDate(expiry.getDate() + 30)] gives, which depends
    on the time zone.  The login theorems quantify over the runtime.
    The rate-limit entries are modelled on their own in [RateLimit].

    - [signupSubmit]: the submit handler of the signup form
      (signup.js 255-286);
    - [loginSubmit]: the submit handler of the login form
      (login.js 1-42); [rememberedLogin]: its DOMContentLoaded handler
      (login.js 79-97);
    - [setSession], [getSession], [clearSession]: AuthUtils' session
      functions (auth.js 84-112) and [generateId] (auth.js 115-117),
      with the text of [Math.random().toString(36)] passed in;
    - [showPasswordHint]: the hint of the login page (login.js 43-65). *)

From Stdlib Require Import Ascii String ZArith.
From stdpp Require Import base list gmap strings.
From S2P Require Import Prelude Signup.

Local Open Scope Z_scope.

(** [userData] as stored under [mempass_user]. *)
Record UserData := {
  ud_email : jstr; ud_username : jstr; ud_password : jstr;
  ud_answers : option (UserAnswer * UserAnswer); ud_createdAt : Z }.

Inductive LocalValue :=
| LUser (u : UserData)     (* JSON of a userData object *)
| LText (t : jstr)         (* a plain string, not JSON *)
| LTime (t : Z).           (* an ISO date string *)

(** [sessionData] of [AuthUtils.setSession]. *)
Record SessionData := {
  sd_userId : jstr; sd_email : jstr; sd_username : jstr;
  sd_loggedInAt : Z; sd_expiresAt : Z }.

Inductive SessionValue :=
| SSession (d : SessionData)
| SText (t : jstr).

Record Browser := {
  local : gmap jstr LocalValue;
  session : gmap jstr SessionValue }.

Definition set_local (b : Browser) (f : gmap jstr LocalValue → gmap jstr LocalValue) : Browser :=
  {| local := f (local b); session := session b |}.
Definition set_session (b : Browser) (f : gmap jstr SessionValue → gmap jstr SessionValue) : Browser :=
  {| local := local b; session := f (session b) |}.

Definition key_user : jstr := ‹"mempass_user"›.
Definition key_remember : jstr := ‹"mempass_remember"›.
Definition key_logged_in : jstr := ‹"mempass_logged_in"›.
Definition key_user_email : jstr := ‹"mempass_user_email"›.
Definition key_session : jstr := ‹"mempass_session"›.

(** ** The signup form's submit handler *)

Inductive SubmitOutcome :=
| SubmitMismatch          (* the "Passwords do not match" alert *)
| SubmitCreated.          (* the success alert and the redirect to login *)

Definition signupSubmit (email username confirmPassword : jstr) (now : Z)
    (pg : SignupPage) (b : Browser) : SubmitOutcome * Browser :=
  if decide (confirmPassword ≠ currentPassword pg) then (SubmitMismatch, b)
  else
    let userData := {| ud_email := email; ud_username := username;
                       ud_password := currentPassword pg; ud_answers := userAnswers pg;
                       ud_createdAt := now |} in
    let b := set_local b (insert key_user (LUser userData)) in
    let b := set_local b (insert (‹"mempass_"› ++ email) (LText (currentPassword pg))) in
    (SubmitCreated, b).

(** ** The login form's submit handler *)

Inductive LoginOutcome :=
| LoginNoAccount          (* "No account found. Please sign up first." *)
| LoginInvalid            (* "Invalid email/username or password" *)
| LoginSuccess            (* "Login successful!" and the redirect *)
| LoginThrows.            (* JSON.parse threw, or a property of null was read *)

(** ** The JavaScript runtime the login handler calls

    A JSON value as [JSON.parse] returns it (numbers are kept as
    integers: the handler only compares values with strings). *)
Inductive json :=
| JNull
| JBool (b : bool)
| JNumber (z : Z)
| JString (s : jstr)
| JArray (l : list json)
| JObject (fields : list (jstr * json)).

(** [v.k]: [None] when it throws (a property of [null]); [Some None] for
    [undefined]; with duplicate keys the last one wins, as in
    [JSON.parse]. *)
Definition json_get (v : json) (k : jstr) : option (option json) :=
  match v with
  | JNull => None
  | JObject fields => Some (snd <$> find (λ kv, bool_decide (kv.1 = k)) (reverse fields))
  | _ => Some None
  end.

(** [v === s] for a value read from a parsed record and a string. *)
Definition js_eq_str (v : option json) (s : jstr) : bool :=
  match v with Some (JString t) => bool_decide (t = s) | _ => false end.

(** [String(v)], the text [sessionStorage.setItem] stores for a value. *)
Fixpoint js_String (v : json) : jstr :=
  match v with
  | JNull => ‹"null"›
  | JBool b => if b then ‹"true"› else ‹"false"›
  | JNumber z => if decide (0 ≤ z) then z_to_string z else ‹"-"› ++ z_to_string (- z)
  | JString s => s
  | JArray l => join ‹","› (map (λ x, match x with JNull => [] | _ => js_String x end) l)
  | JObject _ => ‹"[object Object]"›
  end.

(** What the model leaves to the runtime: [JSON.parse] of a stored text
    ([None] when it throws a SyntaxError), and the instant an
    [expiry] Date made at a given instant holds after
    [expiry.setDate(expiry.getDate() + 30)] (thirty local calendar
    days later: it depends on the time zone's daylight-saving rules). *)
Record Runtime := {
  json_parse : jstr → option json;
  setDate_plus30 : Z → Z }.

(** What [JSON.parse] guarantees and the theorems use: the decoded
    [password] string of a parsed object is shorter than the text it
    was parsed from (the text also holds the braces and the key). *)
Definition parse_shrinks (rt : Runtime) : Prop :=
  ∀ t v p, json_parse rt t = Some v → json_get v ‹"password"› = Some (Some (JString p)) →
    (length p < length t)%nat.

(** The writes of a successful login (login.js 25-35), given the stored
    value of [userData.email]. *)
Definition login_writes (rt : Runtime) (email_text : jstr) (rememberMe : bool) (now : Z)
    (b : Browser) : Browser :=
  let b := set_session b (insert key_logged_in (SText ‹"true"›)) in
  let b := set_session b (insert key_user_email (SText email_text)) in
  if rememberMe then set_local b (insert key_remember (LTime (setDate_plus30 rt now))) else b.

(** The submit handler.  A stored [userData] object ([LUser]) parses back
    to itself; a stored plain text goes through [JSON.parse]: the empty
    text is falsy ("No account found"), a text that is not JSON throws,
    [null] throws on [userData.email], and any other value is compared
    field by field ([undefined] equals no string).  A stored ISO date is
    not JSON. *)
Definition loginSubmit (rt : Runtime) (loginEmail password : jstr) (rememberMe : bool) (now : Z)
    (b : Browser) : LoginOutcome * Browser :=
  let identifier := trim loginEmail in
  match local b !! key_user with
  | None | Some (LText []) => (LoginNoAccount, b)
  | Some (LUser u) =>
      if decide ((identifier ≠ ud_email u ∧ identifier ≠ ud_username u) ∨ password ≠ ud_password u)
      then (LoginInvalid, b)
      else (LoginSuccess, login_writes rt (ud_email u) rememberMe now b)
  | Some (LText t) =>
      match json_parse rt t with
      | None => (LoginThrows, b)
      | Some v =>
          match json_get v ‹"email"›, json_get v ‹"username"›, json_get v ‹"password"› with
          | Some e, Some un, Some p =>
              if (negb (js_eq_str e identifier) && negb (js_eq_str un identifier))
                 || negb (js_eq_str p password)
              then (LoginInvalid, b)
              else (LoginSuccess, login_writes rt (default ‹"undefined"› (js_String <$> e)) rememberMe now b)
          | _, _, _ => (LoginThrows, b)
          end
      end
  | Some (LTime _) => (LoginThrows, b)
  end.

(** The DOMContentLoaded handler: with an unexpired remember-me entry and
    a stored user, the email field is prefilled (the result); an expired
    entry, or one that is not a date ([new Date] gives an invalid date,
    which compares false), is removed; an empty string is falsy.  A stored
    user that is not JSON makes [JSON.parse] throw, which changes
    nothing. *)
Definition rememberedLogin (now : Z) (b : Browser) : option jstr * Browser :=
  match local b !! key_remember with
  | None => (None, b)
  | Some (LTime expiry) =>
      if decide (now < expiry) then
        match local b !! key_user with
        | Some (LUser u) => (Some (ud_email u), b)
        | _ => (None, b)
        end
      else (None, set_local b (delete key_remember))
  | Some (LText []) => (None, b)
  | Some _ => (None, set_local b (delete key_remember))
  end.

(** ** AuthUtils sessions *)

(** [24 * 60 * 60 * 1000] *)
Definition day : Z := 24 * 60 * 60 * 1000.

(** [s.substr(start, length)] for non-negative arguments. *)
Definition substr (s : jstr) (start len : nat) : jstr := take len (drop start s).

(** [AuthUtils.generateId()]: [random36] is the text of
    [Math.random().toString(36)] (the engine's base-36 printing of a
    double is not modelled); [Date.now()] is [now]. *)
Definition generateId (now : Z) (random36 : jstr) : jstr :=
  ‹"uid_"› ++ z_to_string now ++ ‹"_"› ++ substr random36 2 9.

(** [setSession(userData)]: [Date.now()] and [new Date()] read the same
    [now] (the two calls are modelled as one instant). *)
Definition setSession (random36 email username : jstr) (now : Z) (b : Browser) : SessionData * Browser :=
  let sd := {| sd_userId := generateId now random36; sd_email := email; sd_username := username;
               sd_loggedInAt := now; sd_expiresAt := now + day |} in
  (sd, set_session b (insert key_session (SSession sd))).

Definition clearSession (b : Browser) : Browser := set_session b (delete key_session).

(** What [getSession] returns: [null], the session, or the exception
    [JSON.parse] throws on a stored text that is not JSON (only
    [setSession] writes this key, so it is not reached). *)
Inductive GetSessionResult :=
| SessionNull
| SessionFound (sd : SessionData)
| SessionThrows.

Definition getSession (now : Z) (b : Browser) : GetSessionResult * Browser :=
  match session b !! key_session with
  | None => (SessionNull, b)
  | Some (SSession sd) =>
      if decide (sd_expiresAt sd < now) then (SessionNull, clearSession b) else (SessionFound sd, b)
  | Some (SText t) => if decide (t = []) then (SessionNull, b) else (SessionThrows, b)
  end.

(** The parts of an id made by [generateId]: the prefix [uid], the
    timestamp and the random suffix, split at the underscores. *)
Definition parse_uid (id : jstr) : option (nat * jstr) :=
  match split "_"%char id with
  | [p; t; r] => if decide (p = ‹"uid"›) then n ← parse_number t; Some (n, r) else None
  | _ => None
  end.

(** ** The password hint of the login page *)

(** The variable parts of the hint list: the two question texts and the
    password length. *)
Record HintList := { hint_q1 : jstr; hint_q2 : jstr; hint_length : nat }.

Inductive HintOutcome :=
| HintNoAccount          (* the alert "No account found. Please sign up first." *)
| HintShown (h : HintList)   (* the hint list shown *)
| HintThrows.            (* [JSON.parse] threw, or [answers.q1] of [{}] is read *)

(** [document.querySelector(`#q option[value="${v}"]`)?.textContent ||
    'Unknown question'], with [option_text] the texts of the options of
    the login page's select (login.html, outside src/). *)
Definition question_label (option_text : jstr → option jstr) (v : jstr) : jstr :=
  match option_text v with
  | Some t => if decide (t = []) then ‹"Unknown question"› else t
  | None => ‹"Unknown question"›
  end.

(** [showPasswordHint()]: the stored [answers] is [{}] ([None]) when the
    account was created before any password was generated. *)
Definition showPasswordHint (q1_text q2_text : jstr → option jstr) (b : Browser) : HintOutcome :=
  match local b !! key_user with
  | None | Some (LText []) => HintNoAccount
  | Some (LUser u) =>
      match ud_answers u with
      | Some (a1, a2) =>
          HintShown {| hint_q1 := question_label q1_text (type a1);
                       hint_q2 := question_label q2_text (type a2);
                       hint_length := length (ud_password u) |}
      | None => HintThrows
      end
  | Some _ => HintThrows
  end.

(** ** Lemmas *)

Lemma signupSubmit_created email username confirm now pg b :
  confirm = currentPassword pg →
  signupSubmit email username confirm now pg b =
  (SubmitCreated,
   set_local (set_local b (insert key_user (LUser {| ud_email := email; ud_username := username;
        ud_password := currentPassword pg; ud_answers := userAnswers pg; ud_createdAt := now |})))
     (insert (‹"mempass_"› ++ email) (LText (currentPassword pg)))).
Proof. intros ->. unfold signupSubmit. by rewrite decide_False by tauto. Qed.

(** After a signup with an email other than [user], [mempass_user] holds
    the new record. *)
Lemma signupSubmit_user_record email username now pg b :
  email ≠ ‹"user"› →
  local (signupSubmit email username (currentPassword pg) now pg b).2 !! key_user =
  Some (LUser {| ud_email := email; ud_username := username; ud_password := currentPassword pg;
                 ud_answers := userAnswers pg; ud_createdAt := now |}).
Proof.
  intros Hne. rewrite signupSubmit_created by done. simpl.
  rewrite lookup_insert_ne by (intros Heq; apply Hne; unfold key_user in Heq; simpl in Heq; by simplify_eq).
  by rewrite lookup_insert_eq.
Qed.

Lemma z_to_string_no_underscore (z : Z) : "_"%char ∉ z_to_string z.
Proof.
  destruct (number_to_string_digits (Z.to_nat z)) as [_ Hd]. intros Hin.
  rewrite Forall_forall in Hd. by apply Hd in Hin.
Qed.

Lemma substr_elem (s : jstr) i n c : c ∈ substr s i n → c ∈ s.
Proof. unfold substr. intros H%subseteq_take%subseteq_drop. exact H. Qed.

Lemma login_accepts rt ident password rememberMe now b u :
  local b !! key_user = Some (LUser u) →
  (trim ident = ud_email u ∨ trim ident = ud_username u) → password = ud_password u →
  (loginSubmit rt ident password rememberMe now b).1 = LoginSuccess.
Proof.
  intros Hu Hid Hpw. unfold loginSubmit. rewrite Hu.
  by rewrite decide_False by (intros [[? ?]|?]; tauto).
Qed.

(** A login either succeeds and makes the writes of [login_writes], or
    fails and writes nothing. *)
Lemma loginSubmit_shape rt ident password rememberMe now b :
  let r := loginSubmit rt ident password rememberMe now b in
  (r.1 = LoginSuccess ∧ ∃ e, r.2 = login_writes rt e rememberMe now b) ∨
  (r.1 ≠ LoginSuccess ∧ r.2 = b).
Proof.
  unfold loginSubmit. repeat case_match; simpl; try (right; split; [discriminate|done]);
    left; split; eauto.
Qed.

(** The login writes touch only the two login keys of sessionStorage. *)
Lemma login_writes_session_other rt e rememberMe now b k :
  k ≠ key_logged_in → k ≠ key_user_email →
  session (login_writes rt e rememberMe now b) !! k = session b !! k.
Proof.
  intros H1 H2. unfold login_writes.
  destruct rememberMe; simpl; by rewrite !lookup_insert_ne by done.
Qed.

(** ** Properties *)

(** C15: the signup-then-login round trip: after the signup form is
    submitted with the generated password confirmed, logging in with the
    email or the username (surrounding whitespace trimmed) and that
    password succeeds, provided the email does not make the password key
    [mempass_<email>] collide with [mempass_user]. *)
Theorem signup_then_login (rt : Runtime) (email username ident : jstr) (now now' : Z) (pg : SignupPage)
    (b : Browser) (rememberMe : bool) :
  ‹"mempass_"› ++ email ≠ key_user →
  trim ident = email ∨ trim ident = username →
  let r := signupSubmit email username (currentPassword pg) now pg b in
  r.1 = SubmitCreated ∧ (loginSubmit rt ident (currentPassword pg) rememberMe now' r.2).1 = LoginSuccess.
Proof.
  intros Hkey Hid. rewrite signupSubmit_created by done. split; [done|].
  eapply login_accepts; [simpl; rewrite lookup_insert_ne by done; apply lookup_insert_eq
                        |exact Hid|done].
Qed.

Definition empty_browser : Browser := {| local := ∅; session := ∅ |}.

(** A runtime for the examples: no stored text is JSON, and the expiry
    is thirty days of 24 hours later (no daylight-saving change). *)
Definition demo_runtime : Runtime := {| json_parse := λ _, None; setDate_plus30 := λ t, t + 30 * day |}.

(** A signup page after a password [p] was generated. *)
Definition page_with (p : jstr) : SignupPage :=
  {| currentPassword := p; userAnswers := None; shownPassword := p;
     controlsEnabled := true; meter := None; alert := None |}.

Lemma signup_then_login_witness :
  ‹"mempass_"› ++ ‹"ann@x.io"› ≠ key_user ∧ (trim ‹" ann@x.io "› = ‹"ann@x.io"› ∨ trim ‹" ann@x.io "› = ‹"ann"›) ∧
  (loginSubmit demo_runtime ‹" ann@x.io "› ‹"R3x@B0$t0n26"› false 5
     (signupSubmit ‹"ann@x.io"› ‹"ann"› ‹"R3x@B0$t0n26"› 0
        {| currentPassword := ‹"R3x@B0$t0n26"›; userAnswers := None; shownPassword := ‹"R3x@B0$t0n26"›;
           controlsEnabled := true; meter := None; alert := None |} empty_browser).2).1 = LoginSuccess.
Proof.
  assert (Hk : ‹"mempass_"› ++ ‹"ann@x.io"› ≠ key_user) by discriminate.
  assert (Hi : trim ‹" ann@x.io "› = ‹"ann@x.io"› ∨ trim ‹" ann@x.io "› = ‹"ann"›) by (left; reflexivity).
  split; [exact Hk|]. split; [exact Hi|].
  exact (proj2 (signup_then_login demo_runtime ‹"ann@x.io"› ‹"ann"› ‹" ann@x.io "› 0 5
    {| currentPassword := ‹"R3x@B0$t0n26"›; userAnswers := None; shownPassword := ‹"R3x@B0$t0n26"›;
       controlsEnabled := true; meter := None; alert := None |} empty_browser false Hk Hi)).
Defined.

(** C17: an account whose email is "user" cannot log in: the password
    stored under [mempass_user] ("mempass_" + email) overwrites the user
    record, and no login with that account's password succeeds, whatever
    the identifier typed: the empty password reads as no account, a text
    that is not JSON (or [null]) throws, and the [password] field of any
    object [JSON.parse] could read from the text is shorter than the
    text itself. *)
Theorem signup_email_user_collision (rt : Runtime) (pg : SignupPage) (username ident : jstr)
    (rememberMe : bool) (now now' : Z) (b : Browser) :
  parse_shrinks rt →
  let r := signupSubmit ‹"user"› username (currentPassword pg) now pg b in
  r.1 = SubmitCreated ∧
  (loginSubmit rt ident (currentPassword pg) rememberMe now' r.2).1 ≠ LoginSuccess.
Proof.
  intros Hshr. rewrite signupSubmit_created by done. split; [done|].
  unfold loginSubmit. cbn [fst snd local set_local]. rewrite lookup_insert_eq.
  destruct (currentPassword pg) as [|c t] eqn:Hp; [discriminate|].
  destruct (json_parse rt (c :: t)) as [v|] eqn:Hv; [|discriminate].
  destruct (json_get v ‹"email"›), (json_get v ‹"username"›), (json_get v ‹"password"›) as [p|] eqn:Hpw;
    try discriminate.
  destruct p as [[| | |q| |]|]; simpl; rewrite ?orb_true_r; try discriminate.
  case_bool_decide as Hq; [|by rewrite orb_true_r]. subst q.
  pose proof (Hshr _ _ _ Hv Hpw). lia.
Qed.

Lemma signup_email_user_collision_witness :
  parse_shrinks demo_runtime ∧
  (loginSubmit demo_runtime ‹"user"› ‹"R3x@B0$t0n26"› false 1
     (signupSubmit ‹"user"› ‹"bob"› ‹"R3x@B0$t0n26"› 0 (page_with ‹"R3x@B0$t0n26"›) empty_browser).2).1
  ≠ LoginSuccess.
Proof.
  assert (H : parse_shrinks demo_runtime) by (intros t v p Hv; discriminate Hv).
  split; [exact H|].
  exact (proj2 (signup_email_user_collision demo_runtime (page_with ‹"R3x@B0$t0n26"›) ‹"bob"› ‹"user"›
                  false 0 1 empty_browser H)).
Defined.

(** C16: the login handler and AuthUtils' sessions do not meet: a
    successful login writes [mempass_logged_in] and [mempass_user_email]
    but never calls [setSession], so [getSession] still returns [null]
    on a browser that had no session. *)
Theorem login_no_session (rt : Runtime) (ident password : jstr) (rememberMe : bool) (now now' : Z) (b : Browser) :
  session b !! key_session = None →
  (loginSubmit rt ident password rememberMe now b).1 = LoginSuccess →
  (getSession now' (loginSubmit rt ident password rememberMe now b).2).1 = SessionNull.
Proof.
  intros Hnone Hok. unfold getSession.
  destruct (loginSubmit_shape rt ident password rememberMe now b) as [[_ [e ->]]|[Hf _]]; [|done].
  by rewrite login_writes_session_other, Hnone by discriminate.
Qed.

Lemma login_no_session_witness :
  let b := (signupSubmit ‹"ann@x.io"› ‹"ann"› ‹"pw"› 0
              {| currentPassword := ‹"pw"›; userAnswers := None; shownPassword := ‹"pw"›;
                 controlsEnabled := true; meter := None; alert := None |} empty_browser).2 in
  session b !! key_session = None ∧ (loginSubmit demo_runtime ‹"ann"› ‹"pw"› true 5 b).1 = LoginSuccess ∧
  (getSession 6 (loginSubmit demo_runtime ‹"ann"› ‹"pw"› true 5 b).2).1 = SessionNull.
Proof.
  split; [reflexivity|]. split; [reflexivity|].
  apply login_no_session; reflexivity.
Defined.

(** C19: a session set at [t] is returned by [getSession] up to and
    including [t + 24 h]; afterwards [getSession] returns [null] and
    removes it. *)
Theorem session_lifetime (random36 email username : jstr) (t now : Z) (b : Browser) :
  let b1 := (setSession random36 email username t b).2 in
  (now ≤ t + day → (getSession now b1).1 = SessionFound (setSession random36 email username t b).1) ∧
  (t + day < now → getSession now b1 = (SessionNull, clearSession b1)).
Proof.
  unfold getSession, setSession. simpl. rewrite lookup_insert_eq. simpl.
  split; intros H; [by rewrite decide_False by lia|by rewrite decide_True].
Qed.

(** C20: remember-me: after a login with the box checked at [t], the login
    page prefills the email while [now] is before the stored expiry, the
    instant [expiry.setDate(expiry.getDate() + 30)] gives (thirty local
    calendar days after [t]); from then on the entry is removed. *)
Theorem remember_me_window (rt : Runtime) (ident password : jstr) (t now : Z) (b : Browser) (u : UserData) :
  local b !! key_user = Some (LUser u) →
  (loginSubmit rt ident password true t b).1 = LoginSuccess →
  let b1 := (loginSubmit rt ident password true t b).2 in
  (now < setDate_plus30 rt t → (rememberedLogin now b1).1 = Some (ud_email u)) ∧
  (setDate_plus30 rt t ≤ now → rememberedLogin now b1 = (None, set_local b1 (delete key_remember))).
Proof.
  intros Hu. unfold loginSubmit. rewrite Hu. case_decide; [done|]. intros _.
  unfold rememberedLogin, login_writes. simpl. rewrite lookup_insert_eq.
  split; intros Hn.
  - rewrite decide_True by done. simpl. by rewrite lookup_insert_ne, Hu by discriminate.
  - by rewrite decide_False by lia.
Qed.

Lemma remember_me_window_witness :
  let u := {| ud_email := ‹"ann@x.io"›; ud_username := ‹"ann"›; ud_password := ‹"pw"›;
              ud_answers := None; ud_createdAt := 0 |} in
  let b := {| local := {[key_user := LUser u]}; session := ∅ |} in
  local b !! key_user = Some (LUser u) ∧ (loginSubmit demo_runtime ‹"ann"› ‹"pw"› true 0 b).1 = LoginSuccess ∧
  (rememberedLogin 1 (loginSubmit demo_runtime ‹"ann"› ‹"pw"› true 0 b).2).1 = Some ‹"ann@x.io"›.
Proof.
  split; [reflexivity|]. split; [reflexivity|].
  apply (remember_me_window demo_runtime ‹"ann"› ‹"pw"› 0 1 _
           {| ud_email := ‹"ann@x.io"›; ud_username := ‹"ann"›; ud_password := ‹"pw"›;
              ud_answers := None; ud_createdAt := 0 |}); [reflexivity|reflexivity|].
  simpl. unfold day. lia.
Defined.

(** A failed login (unknown identifier or wrong password) changes
    nothing in either storage. *)
Theorem login_rejected_unchanged (rt : Runtime) (ident password : jstr) (rememberMe : bool) (now : Z) (b : Browser) :
  (loginSubmit rt ident password rememberMe now b).1 ≠ LoginSuccess →
  (loginSubmit rt ident password rememberMe now b).2 = b.
Proof. destruct (loginSubmit_shape rt ident password rememberMe now b) as [[? _]|[_ ?]]; done. Qed.

Lemma login_rejected_unchanged_witness :
  (loginSubmit demo_runtime ‹"ann"› ‹"pw"› false 0 empty_browser).1 ≠ LoginSuccess ∧
  (loginSubmit demo_runtime ‹"ann"› ‹"pw"› false 0 empty_browser).2 = empty_browser.
Proof. split; [discriminate|]. apply login_rejected_unchanged. discriminate. Defined.

(** C18: the store keeps one account: a second signup replaces the user
    record, and the first account's credentials are then rejected. *)
Theorem second_signup_replaces_first (rt : Runtime) (pg1 pg2 : SignupPage) (now1 now2 now3 : Z) (b : Browser) :
  currentPassword pg1 ≠ currentPassword pg2 →
  let b1 := (signupSubmit ‹"ann@x.io"› ‹"ann"› (currentPassword pg1) now1 pg1 b).2 in
  let b2 := (signupSubmit ‹"bob@x.io"› ‹"bob"› (currentPassword pg2) now2 pg2 b1).2 in
  (loginSubmit rt ‹"ann"› (currentPassword pg1) false now3 b1).1 = LoginSuccess ∧
  (loginSubmit rt ‹"ann"› (currentPassword pg1) false now3 b2).1 = LoginInvalid.
Proof.
  intros Hne. cbv zeta. rewrite !signupSubmit_created by done. split.
  - eapply login_accepts; [cbn [fst snd local set_local]; rewrite lookup_insert_ne by discriminate;
                           apply lookup_insert_eq|right; reflexivity|done].
  - unfold loginSubmit. cbn [fst snd local set_local].
    rewrite lookup_insert_ne by discriminate. rewrite lookup_insert_eq. cbn [ud_email ud_username ud_password].
    rewrite decide_True; [done|]. left. split; discriminate.
Qed.

Lemma second_signup_replaces_first_witness :
  currentPassword (page_with ‹"pw1"›) ≠ currentPassword (page_with ‹"pw2"›) ∧
  (loginSubmit demo_runtime ‹"ann"› ‹"pw1"› false 2
     (signupSubmit ‹"bob@x.io"› ‹"bob"› ‹"pw2"› 1 (page_with ‹"pw2"›)
        (signupSubmit ‹"ann@x.io"› ‹"ann"› ‹"pw1"› 0 (page_with ‹"pw1"›) empty_browser).2).2).1
  = LoginInvalid.
Proof.
  assert (Hne : currentPassword (page_with ‹"pw1"›) ≠ currentPassword (page_with ‹"pw2"›)) by discriminate.
  split; [exact Hne|].
  exact (proj2 (second_signup_replaces_first demo_runtime _ _ 0 1 2 empty_browser Hne)).
Defined.

(** C27: the id [generateId] makes reads back: split at the underscores it
    gives the prefix [uid], the timestamp and the nine-unit suffix, as
    long as the base-36 text has no underscore (it never has). *)
Theorem generateId_roundtrip (now : Z) (random36 : jstr) :
  0 ≤ now → "_"%char ∉ random36 →
  parse_uid (generateId now random36) = Some (Z.to_nat now, substr random36 2 9).
Proof.
  intros Hnow Hr. unfold generateId, parse_uid.
  change (‹"uid_"› ++ ?x) with (‹"uid"› ++ "_"%char :: x).
  rewrite split_app_sep by (apply (bool_decide_unpack _); by vm_compute).
  change (‹"_"› ++ ?y) with ("_"%char :: y).
  rewrite split_app_sep by apply z_to_string_no_underscore.
  rewrite split_no_sep by (intros H%substr_elem; contradiction).
  rewrite decide_True by done. unfold z_to_string. by rewrite parse_number_to_string.
Qed.

Lemma generateId_roundtrip_witness :
  (0 ≤ 1700000000000) ∧ ("_"%char ∉ ‹"0.4fzyo82mvyr"›) ∧
  parse_uid (generateId 1700000000000 ‹"0.4fzyo82mvyr"›) = Some (Z.to_nat 1700000000000, ‹"4fzyo82mv"›).
Proof.
  assert (Hr : "_"%char ∉ ‹"0.4fzyo82mvyr"›) by (apply (bool_decide_unpack _); by vm_compute).
  split; [lia|]. split; [exact Hr|]. apply generateId_roundtrip; [lia|exact Hr].
Defined.

(** C25: an account created before any password was generated (both
    password fields empty: [currentPassword] is [""] and [userAnswers] is
    [{}]) is stored, and then the login page's password hint throws
    reading [answers.q1.type]. *)
Theorem empty_signup_hint_throws (email username : jstr) (now : Z) (pg : SignupPage) (b : Browser)
    (q1_text q2_text : jstr → option jstr) :
  currentPassword pg = [] → userAnswers pg = None → email ≠ ‹"user"› →
  let r := signupSubmit email username [] now pg b in
  r.1 = SubmitCreated ∧ showPasswordHint q1_text q2_text r.2 = HintThrows.
Proof.
  intros Hp Hu Hne. rewrite <- Hp. split; [by rewrite signupSubmit_created|].
  unfold showPasswordHint. rewrite signupSubmit_user_record by done. simpl. by rewrite Hu.
Qed.

Lemma empty_signup_hint_throws_witness :
  currentPassword empty_page = [] ∧ userAnswers empty_page = None ∧ ‹"bob@x.io"› ≠ ‹"user"› ∧
  showPasswordHint (λ _, None) (λ _, None)
    (signupSubmit ‹"bob@x.io"› ‹"bob"› [] 0 empty_page {| local := ∅; session := ∅ |}).2 = HintThrows.
Proof.
  split; [reflexivity|]. split; [reflexivity|]. split; [discriminate|].
  apply (empty_signup_hint_throws ‹"bob@x.io"› ‹"bob"› 0 empty_page _ (λ _, None) (λ _, None));
    [reflexivity|reflexivity|discriminate].
Defined.

(** After a signup with a generated password and both answers, the
    login page's hint names the two questions (or [Unknown question])
    and reports the stored password's length. *)
Theorem signup_then_hint (email username : jstr) (now : Z) (pg : SignupPage) (b : Browser)
    (a1 a2 : UserAnswer) (q1_text q2_text : jstr → option jstr) :
  userAnswers pg = Some (a1, a2) → email ≠ ‹"user"› →
  showPasswordHint q1_text q2_text (signupSubmit email username (currentPassword pg) now pg b).2 =
  HintShown {| hint_q1 := question_label q1_text (type a1); hint_q2 := question_label q2_text (type a2);
               hint_length := length (currentPassword pg) |}.
Proof.
  intros Hu Hne. unfold showPasswordHint. rewrite signupSubmit_user_record by done.
  simpl. by rewrite Hu.
Qed.

Lemma signup_then_hint_witness :
  let pg := {| currentPassword := ‹"R3x@B0$t0n26"›;
               userAnswers := Some ({| answer := ‹"Rex"›; type := ‹"pet"› |},
                                    {| answer := ‹"Boston"›; type := ‹"city"› |});
               shownPassword := ‹"R3x@B0$t0n26"›; controlsEnabled := true; meter := None; alert := None |} in
  userAnswers pg = Some ({| answer := ‹"Rex"›; type := ‹"pet"› |}, {| answer := ‹"Boston"›; type := ‹"city"› |}) ∧
  ‹"bob@x.io"› ≠ ‹"user"› ∧
  showPasswordHint (λ _, Some ‹"First pet?"›) (λ _, None)
    (signupSubmit ‹"bob@x.io"› ‹"bob"› (currentPassword pg) 0 pg {| local := ∅; session := ∅ |}).2 =
  HintShown {| hint_q1 := ‹"First pet?"›; hint_q2 := ‹"Unknown question"›; hint_length := 12 |}.
Proof.
  cbv zeta. split; [reflexivity|]. split; [discriminate|].
  rewrite (signup_then_hint ‹"bob@x.io"› ‹"bob"› 0 _ _ {| answer := ‹"Rex"›; type := ‹"pet"› |}
             {| answer := ‹"Boston"›; type := ‹"city"› |}); [reflexivity|reflexivity|discriminate].
Defined.
