(* ===== verification/AuthText.v ===== *)
(** * AuthText: [AuthUtils.sanitizeInput] and [AuthUtils.generateHint]

    [sanitizeInput] (auth.js 31-39) removes the units < > ' ` ; = and
    the double quote, trims
    and keeps at most 100 units; an input that is not a string gives
    the empty string.  [generateHint] (auth.js 42-55) turns each answer
    longer than two units into its first unit, a star per hidden unit
    and its last unit; [Object.values] lists the answers in insertion
    order, here the list [answers]. *)

From Stdlib Require Import Ascii String ZArith.
From stdpp Require Import base list.
From S2P Require Import Prelude Signup.

Local Open Scope char_scope.

(** The argument of [sanitizeInput]: a string or any other JS value. *)
Inductive JSValue := JSString (s : jstr) | JSOther.

(** The class of the removal pattern of [sanitizeInput]: < > ' ` ; =
    and the double quote (code unit 34). *)
Definition dangerous_chars : jstr := ["<"; ">"; ascii_of_nat 34; "'"; "`"; ";"; "="].

Definition is_dangerous (c : ascii) : bool := bool_decide (c ∈ dangerous_chars).

Definition sanitizeInput (input : JSValue) : jstr :=
  match input with
  | JSString s => substring (trim (filter (λ c, is_dangerous c = false) s)) 0 100
  | JSOther => []
  end.

(** [answer.charAt(0) + '*'.repeat(Math.max(0, answer.length - 2))
     + answer.charAt(answer.length - 1)] *)
Definition hint_of (answer : jstr) : jstr :=
  charAt answer 0 ++ replicate (length answer - 2) "*" ++ charAt answer (length answer - 1).

Definition generateHint (answers : list UserAnswer) : list jstr :=
  map (λ a, hint_of (answer a)) (filter (λ a, 2 < length (answer a)) answers).

(** ** Lemmas *)

Lemma sanitize_take s :
  sanitizeInput (JSString s) = take 100 (trim (filter (λ c, is_dangerous c = false) s)).
Proof.
  unfold sanitizeInput. rewrite substring_prefix by lia.
  set (l := trim _). destruct (decide (length l ≤ 100)).
  - rewrite !take_ge by lia. done.
  - f_equal. lia.
Qed.

Lemma trim_start_elem (s : jstr) c : c ∈ trim_start s → c ∈ s.
Proof.
  induction s as [|d s IH]; simpl; [done|].
  destruct (is_js_space d); [rewrite elem_of_cons; auto|done].
Qed.

Lemma trim_elem (s : jstr) c : c ∈ trim s → c ∈ s.
Proof.
  unfold trim. rewrite elem_of_reverse. intros H.
  apply trim_start_elem in H. rewrite elem_of_reverse in H. by apply trim_start_elem.
Qed.

(** ** Properties *)

(** C34: [sanitizeInput] returns at most 100 units, none of them one of the
    removed characters. *)
Theorem sanitizeInput_safe (v : JSValue) :
  length (sanitizeInput v) ≤ 100 ∧ Forall (λ c, is_dangerous c = false) (sanitizeInput v).
Proof.
  destruct v as [s|]; [|split; [simpl; lia|constructor]].
  rewrite sanitize_take. split; [apply firstn_le_length|].
  apply Forall_forall. intros c Hc.
  apply elem_of_take in Hc as (i & Hi & _). apply list_elem_of_lookup_2 in Hi.
  apply trim_elem, list_elem_of_filter in Hi as [? _]. done.
Qed.

(** [sanitizeInput] is not idempotent: the 100-unit cut can leave a
    trailing space, which a second call trims. *)
Example sanitizeInput_not_idempotent :
  let s := replicate 99 "a" ++ [" "; "b"] in
  sanitizeInput (JSString (sanitizeInput (JSString s))) ≠ sanitizeInput (JSString s).
Proof. vm_compute. discriminate. Qed.

(** A hint keeps the first and the last unit of an answer of at least
    three units and replaces every other unit by a star. *)
Theorem hint_of_shape (c d : ascii) (a : jstr) :
  hint_of (c :: a ++ [d]) = c :: replicate (length a) "*" ++ [d].
Proof.
  unfold hint_of. rewrite length_cons, length_app. cbn [length].
  replace (S (length a + 1) - 2) with (length a) by lia.
  replace (S (length a + 1) - 1) with (S (length a)) by lia.
  unfold charAt. change ((c :: a ++ [d]) !! S (length a)) with ((a ++ [d]) !! length a).
  rewrite lookup_app_r by lia. rewrite Nat.sub_diag. done.
Qed.

(** Answers of at most two units get no hint. *)
Example generateHint_example :
  generateHint [{| answer := ‹"Rex"›; type := ‹"pet"› |}; {| answer := ‹"Al"›; type := ‹"city"› |}]
  = [‹"R*x"›].
Proof. reflexivity. Qed.
