(* ===== verification/Flow.v ===== *)
(** * Flow: the signup page end to end

    The components meet on the signup page: the question selection
    ([Questions]) fills the form, [generatePassword] ([Signup]) derives
    the password from it, the submit handler stores the account and the
    login handler ([Accounts]) checks credentials against it.  The
    theorem of this file composes their lemmas: from any page state the
    user can reach, a successful generation followed by the submission
    and a login with the stored email and the generated password is
    accepted, and the stored answers are for two different questions. *)

From Stdlib Require Import Ascii String ZArith.
From stdpp Require Import base list gmap.
From S2P Require Import Prelude Random Signup Questions Accounts.

Local Open Scope Z_scope.

(** ** Lemmas *)

(** A [validateAnswers] that succeeds records the two selected questions,
    and the second answer input exists. *)
Lemma validateAnswers_true_types f pg :
  (validateAnswers f pg).1 = true →
  ∃ a1 a2 x2, form_answer2 f = Some x2 ∧
    userAnswers (validateAnswers f pg).2 =
    Some ({| answer := a1; type := form_q1 f |}, {| answer := a2; type := form_q2 f |}).
Proof.
  unfold validateAnswers.
  destruct (form_answer1 f) as [x1|], (form_answer2 f) as [x2|]; simpl; try discriminate.
  case_decide; simpl; [|discriminate]. intros _. by do 3 eexists.
Qed.

(** ** Properties *)

(** C12: from any state of the signup page the user can reach, once
    [validateAnswers] accepts the form, clicking Generate, submitting
    with the generated password confirmed and logging in with the email
    (already trimmed, and not [user]) and that password is accepted; the
    password has at least 12 units and the recorded answers are for two
    different questions. *)
Theorem signup_flow (rt : Runtime) (q1_options : list Question) (qp : QuestionPage) (pg : SignupPage)
    (year : nat) (s : Stream) (email username : jstr) (now now' : Z) (b : Browser) :
  q_reachable q1_options (qp, pg) → (validateAnswers (qp_form qp) pg).1 = true →
  email ≠ ‹"user"› → trim email = email →
  let pg' := (generatePassword year (qp_form qp) pg s).1 in
  let r := signupSubmit email username (currentPassword pg') now pg' b in
  r.1 = SubmitCreated ∧
  (loginSubmit rt email (currentPassword pg') false now' r.2).1 = LoginSuccess ∧
  (12 ≤ length (currentPassword pg'))%nat ∧
  ∃ u1 u2, userAnswers pg' = Some (u1, u2) ∧ type u1 ≠ type u2.
Proof.
  intros Hr Hv Hne Htrim.
  destruct (validateAnswers_true_types _ _ Hv) as (a1 & a2 & x2 & Hx2 & Hua).
  destruct (generatePassword_run year (qp_form qp) pg s _ _ Hv Hua) as [Hcur Hans].
  cbv zeta. split; [by rewrite signupSubmit_created|]. split.
  { eapply login_accepts; [by apply signupSubmit_user_record|by left|done]. }
  split; [rewrite Hcur; apply signup_output_props|].
  do 2 eexists. split; [exact Hans|]. cbn [type].
  destruct (q_inv_reachable q1_options _ Hr) as (_ & Hq2 & _ & _).
  assert (Hin : form_q2 (qp_form qp) ∈ map q_value (remaining_questions (form_q1 (qp_form qp))))
    by (apply Hq2; by rewrite Hx2).
  apply remaining_values in Hin as [Hne2 _]. congruence.
Qed.

Lemma signup_flow_witness :
  q_reachable questions demo_state ∧
  (validateAnswers (qp_form demo_state.1) demo_state.2).1 = true ∧
  ‹"bob@x.io"› ≠ ‹"user"› ∧ trim ‹"bob@x.io"› = ‹"bob@x.io"› ∧
  (loginSubmit demo_runtime ‹"bob@x.io"›
     (currentPassword (generatePassword 2026 (qp_form demo_state.1) demo_state.2 (λ _, 0)).1) false 1
     (signupSubmit ‹"bob@x.io"› ‹"bob"›
        (currentPassword (generatePassword 2026 (qp_form demo_state.1) demo_state.2 (λ _, 0)).1) 0
        (generatePassword 2026 (qp_form demo_state.1) demo_state.2 (λ _, 0)).1
        {| local := ∅; session := ∅ |}).2).1 = LoginSuccess.
Proof.
  assert (Hr : q_reachable questions demo_state).
  { apply (qrun_reachable questions demo_events (initial_qp, empty_page)); [constructor|reflexivity]. }
  split; [exact Hr|]. split; [reflexivity|]. split; [discriminate|]. split; [reflexivity|].
  apply (signup_flow demo_runtime questions demo_state.1 demo_state.2 2026 (λ _, 0) ‹"bob@x.io"› ‹"bob"› 0 1
           {| local := ∅; session := ∅ |} Hr); [reflexivity|discriminate|reflexivity].
Defined.
